(** * Piconsole: the Pi-to-Pico terminal link

    A shallow embedding of [pi_bridge.py] (host side, [frame_bytes]) and
    [pico_main.py] (device side: [Encoder], [Button], [TerminalView],
    [read_frame] and the polling loop), followed by the properties of the
    framing protocol, the viewport and the input decoders.

    Conventions.
    - Python integers are [Z]; a byte is a [Z] (the wire carries 0..255).
    - A Python [str] is the list of its code points, a [bytes]/[bytearray]
      the list of its bytes.
    - Python exceptions are explicit: a call returns an [outcome] next to
      the state it leaves behind, since mutations done before a [raise]
      persist.
    - The only unbounded loop, the payload loop of [read_frame], takes
      fuel; [None] means the loop is still waiting when the fuel is spent. *)

From Stdlib Require Import ZArith Lia.
From stdpp Require Import base tactics option list numbers.

Local Open Scope Z_scope.

(** ** Python values *)

Module Py.

Inductive exn : Type := IndexError.

Inductive outcome (A : Type) : Type :=
| Ret (a : A)
| Raise (e : exn).
Arguments Ret {A} a.
Arguments Raise {A} e.

(** [len(l)] *)
Definition len {A} (l : list A) : Z := Z.of_nat (length l).

(** [range(n)]: empty when [n <= 0]. *)
Definition range (n : Z) : list Z := Z.of_nat <$> seq 0 (Z.to_nat n).

(** [l[i]]: a negative index counts from the end; out of range raises
    IndexError (here [None]). *)
Definition index {A} (l : list A) (i : Z) : option A :=
  if 0 <=? i then l !! Z.to_nat i
  else if 0 <=? i + len l then l !! Z.to_nat (i + len l)
  else None.

(** Normalisation of one slice bound, as [PySlice_AdjustIndices] does
    for step 1. *)
Definition clip {A} (l : list A) (i : Z) : Z :=
  if i <? 0 then Z.max 0 (i + len l) else Z.min i (len l).

(** [l[start:stop]]: never raises. *)
Definition slice {A} (l : list A) (start stop : Z) : list A :=
  take (Z.to_nat (clip l stop - clip l start)) (drop (Z.to_nat (clip l start)) l).

(** [" " * n] *)
Definition spaces (n : Z) : list Z := replicate (Z.to_nat n) 32.

End Py.

Import Py.

(** ** pi_bridge.py *)

Module PiBridge.

(** The part of a [pyte.Screen] that [frame_bytes] reads. *)
Record Screen : Type := {
  lines : Z;
  columns : Z;
  display : list (list Z)
}.

(** [ch if 32 <= ord(ch) <= 126 else " "] *)
Definition printable_or_space (ch : Z) : Z :=
  if (32 <=? ch) && (ch <=? 126) then ch else 32.

(** [line.encode("ascii", "replace")]: a code point above 127 becomes
    [?]. *)
Definition encode_ascii_replace (line : list Z) : list Z :=
  (fun ch => if ch <? 128 then ch else 63) <$> line.

(** The body of the [for r in range(rows)] loop: the bytes row [r]
    adds to the payload. *)
Definition row_bytes (screen : Screen) (r : nat) : list Z :=
  let cols := columns screen in
  let line := default [] (display screen !! r) in
  let line := printable_or_space <$> line in
  let line :=
    if len line <? cols then line ++ spaces (cols - len line)
    else slice line 0 cols in
  encode_ascii_replace line.

Definition frame_bytes (screen : Screen) : list Z :=
  let rows := lines screen in
  let cols := columns screen in
  let payload := concat (row_bytes screen <$> seq 0 (Z.to_nat rows)) in
  [2] ++ [83] ++ [Z.land rows 255] ++ [Z.land cols 255] ++ payload ++ [3].

End PiBridge.

(** ** pico_main.py: configuration *)

Definition LCD_COLS : Z := 16.
Definition LCD_ROWS : Z := 2.
Definition TERM_ROWS : Z := 24.
Definition TERM_COLS : Z := 80.
Definition BTN_DEBOUNCE_MS : Z := 200.

(** ** MicroPython's [utime] ticks

    [ticks_ms] counts modulo [TICKS_PERIOD] (2^30 on the RP2040 port) and
    [ticks_diff] is the signed difference in that ring, as documented for
    MicroPython's [time] module. *)

Definition TICKS_PERIOD : Z := 2 ^ 30.

Definition ticks_diff (t1 t2 : Z) : Z :=
  (t1 - t2 + TICKS_PERIOD / 2) mod TICKS_PERIOD - TICKS_PERIOD / 2.

(** ** class Encoder *)

Module Encoder.

Record t : Type := { last : Z }.

(** [__init__]: the phase is sampled once from the two pins. *)
Definition init (a b : Z) : t := {| last := Z.lor (Z.shiftl a 1) b |}.

(** The four forward transitions of the Gray code. *)
Definition forward (last state : Z) : bool :=
  (last =? 0) && (state =? 1) ||
  (last =? 1) && (state =? 3) ||
  (last =? 3) && (state =? 2) ||
  (last =? 2) && (state =? 0).

(** [_handler]: [a] and [b] are the two pin levels read on entry,
    [on_step] the callback over the state [S] it may touch.  An
    exception of the callback is swallowed ([except: pass]); what the
    callback changed before raising stays. *)
Definition _handler {S} (on_step : Z -> S -> outcome unit * S)
    (self : t) (a b : Z) (s : S) : t * S :=
  let state := Z.lor (Z.shiftl a 1) b in
  if state =? last self then (self, s)
  else
    let direction := if forward (last self) state then 1 else -1 in
    let self := {| last := state |} in
    (self, snd (on_step direction s)).

(** The handler run over a sequence of observed pin levels. *)
Fixpoint run {S} (on_step : Z -> S -> outcome unit * S)
    (self : t) (pins : list (Z * Z)) (s : S) : t * S :=
  match pins with
  | [] => (self, s)
  | (a, b) :: pins' =>
      let '(self', s') := _handler on_step self a b s in
      run on_step self' pins' s'
  end.

End Encoder.

(** ** class Button *)

Module Button.

Record t : Type := { last_time : Z }.

Definition init : t := {| last_time := 0 |}.

(** [_handler]: [now] is what [ticks_ms()] returns on entry, [pin] the
    level read after the 10 ms settle delay.  The first component says
    whether the trigger passed the debounce test (the early [return]
    was not taken). *)
Definition _handler {S} (on_click : S -> outcome unit * S)
    (self : t) (now pin : Z) (s : S) : bool * t * S :=
  if ticks_diff now (last_time self) <? BTN_DEBOUNCE_MS then (false, self, s)
  else
    let self := {| last_time := now |} in
    if pin =? 0 then (true, self, snd (on_click s))
    else (true, self, s).

End Button.

(** ** class TerminalView *)

Module TerminalView.

Record t : Type := {
  rows : Z;
  cols : Z;
  buffer : list (list Z);
  v_off : Z;
  h_off : Z
}.

(** [[[' ']*cols for _ in range(rows)]]: every row is a fresh list. *)
Definition blank (nrows ncols : Z) : list (list Z) :=
  replicate (Z.to_nat nrows) (spaces ncols).

Definition init (nrows ncols : Z) : t :=
  {| rows := nrows; cols := ncols; buffer := blank nrows ncols;
     v_off := 0; h_off := 0 |}.

(** [chr(b) if 32 <= b <= 126 else ' '] *)
Definition cell (b : Z) : Z :=
  if (32 <=? b) && (b <=? 126) then b else 32.

(** The inner loop [for c in range(cols)] of [apply_snapshot] on row
    [r]: [data_bytes[idx]] is read first, then [self.buffer[r][c]] is
    assigned; either may raise IndexError, which leaves the cells
    written so far in place. *)
Fixpoint fill_cols (data_bytes : list Z) (r : nat) (cs : list nat)
    (buf : list (list Z)) (idx : nat) : outcome unit * list (list Z) * nat :=
  match cs with
  | [] => (Ret (), buf, idx)
  | c :: cs' =>
      match data_bytes !! idx with
      | None => (Raise IndexError, buf, idx)
      | Some b =>
          match buf !! r with
          | None => (Raise IndexError, buf, idx)
          | Some row =>
              if decide (c < length row)%nat
              then fill_cols data_bytes r cs'
                     (<[r := <[c := cell b]> row]> buf) (S idx)
              else (Raise IndexError, buf, idx)
          end
      end
  end.

(** The outer loop [for r in range(rows)]. *)
Fixpoint fill_rows (data_bytes : list Z) (rs : list nat) (ncols : nat)
    (buf : list (list Z)) (idx : nat) : outcome unit * list (list Z) * nat :=
  match rs with
  | [] => (Ret (), buf, idx)
  | r :: rs' =>
      match fill_cols data_bytes r (seq 0 ncols) buf idx with
      | (Ret _, buf', idx') => fill_rows data_bytes rs' ncols buf' idx'
      | raised => raised
      end
  end.

Definition apply_snapshot (self : t) (nrows ncols : Z) (data_bytes : list Z)
    : outcome unit * t :=
  let self :=
    if negb (nrows =? rows self) || negb (ncols =? cols self)
    then {| rows := nrows; cols := ncols; buffer := blank nrows ncols;
            v_off := 0; h_off := 0 |}
    else self in
  let '(o, buf, _) :=
    fill_rows data_bytes (seq 0 (Z.to_nat nrows)) (Z.to_nat ncols)
      (buffer self) 0 in
  (o, {| rows := rows self; cols := cols self; buffer := buf;
         v_off := v_off self; h_off := h_off self |}).

Definition scroll_v (self : t) (delta : Z) : t :=
  {| rows := rows self; cols := cols self; buffer := buffer self;
     v_off := Z.max 0 (Z.min (rows self - 1) (v_off self + delta));
     h_off := h_off self |}.

Definition scroll_h (self : t) (delta : Z) : t :=
  {| rows := rows self; cols := cols self; buffer := buffer self;
     v_off := v_off self;
     h_off := Z.max 0 (Z.min (cols self - 1) (h_off self + delta)) |}.

(** The grid row [window_lines] indexes for output row [r]. *)
Definition window_row (self : t) (r : Z) : Z :=
  Z.min (rows self - 1) (v_off self + r).

(** The bounds [start], [end] of the column slice it takes. *)
Definition window_span (self : t) (width : Z) : Z * Z :=
  let start := h_off self in
  (start, Z.min (cols self) (start + width)).

(** One pass of the loop body of [window_lines]. *)
Definition window_line (self : t) (width r : Z) : outcome (list Z) :=
  let rr := window_row self r in
  let '(start, stop) := window_span self width in
  match index (buffer self) rr with
  | None => Raise IndexError
  | Some line =>
      let s := slice line start stop in
      Ret (if len s <? width then s ++ spaces (width - len s) else s)
  end.

Fixpoint window_loop (self : t) (width : Z) (rs : list Z)
    (lines : list (list Z)) : outcome (list (list Z)) :=
  match rs with
  | [] => Ret lines
  | r :: rs' =>
      match window_line self width r with
      | Ret s => window_loop self width rs' (lines ++ [s])
      | Raise e => Raise e
      end
  end.

Definition window_lines (self : t) (width height : Z)
    : outcome (list (list Z)) :=
  window_loop self width (range height) [].

End TerminalView.

(** ** The UART

    [rx] holds the bytes received and not yet read; [incoming] is what
    the link will deliver, one chunk (possibly empty) between any two
    consecutive calls on the UART.  Once [incoming] is used up the link
    is silent for good. *)

Module UART.

Record t : Type := {
  rx : list Z;
  incoming : list (list Z)
}.

(** The bytes that arrive before the next call looks at [rx]. *)
Definition arrive (u : t) : t :=
  match incoming u with
  | [] => u
  | chunk :: later => {| rx := rx u ++ chunk; incoming := later |}
  end.

(** [uart.any()] *)
Definition any (u : t) : Z * t :=
  let u := arrive u in (len (rx u), u).

(** [uart.read(n)]: at most [n] of the bytes received so far, without
    waiting.  The empty list stands for both [None] and [b''], which
    the callers do not tell apart ([if not b], [if chunk]). *)
Definition read (n : Z) (u : t) : list Z * t :=
  let u := arrive u in
  (take (Z.to_nat n) (rx u),
   {| rx := drop (Z.to_nat n) (rx u); incoming := incoming u |}).

End UART.

(** ** pico_main.py: module level *)

Import TerminalView.

(** [render()]: the strings handed to [lcd.write_str] for display rows 0
    and 1, each cut to the display width; [lines[0]] and [lines[1]] are
    there because [window_lines] is asked for two lines. *)
Definition render (term : TerminalView.t) : outcome (list (list Z)) :=
  match window_lines term LCD_COLS LCD_ROWS with
  | Ret lines =>
      match index lines 0, index lines 1 with
      | Some l0, Some l1 => Ret [slice l0 0 LCD_COLS; slice l1 0 LCD_COLS]
      | _, _ => Raise IndexError
      end
  | Raise e => Raise e
  end.

(** The encoder callbacks; the state they touch is the terminal view and
    what the display shows. *)
Definition Device : Type := (TerminalView.t * list (list Z))%type.

Definition show (term : TerminalView.t) (lcd : list (list Z))
    : outcome unit * Device :=
  match render term with
  | Ret shown => (Ret (), (term, shown))
  | Raise e => (Raise e, (term, lcd))
  end.

Definition on_v_step (direction : Z) (d : Device) : outcome unit * Device :=
  show (scroll_v (fst d) (- direction)) (snd d).

Definition on_h_step (direction : Z) (d : Device) : outcome unit * Device :=
  show (scroll_h (fst d) direction) (snd d).

(** The loop [while len(data) < total] of [read_frame]. *)
Fixpoint read_payload (fuel : nat) (total : Z) (u : UART.t) (data : list Z)
    : option (UART.t * list Z) :=
  if len data <? total then
    match fuel with
    | O => None
    | S fuel' =>
        let '(chunk, u) := UART.read (total - len data) u in
        read_payload fuel' total u
          (match chunk with [] => data | _ => data ++ chunk end)
    end
  else Some (u, data).

Definition read_frame (fuel : nat) (u : UART.t) (term : TerminalView.t)
    : option (outcome bool * UART.t * TerminalView.t) :=
  let '(n, u) := UART.any u in
  if n =? 0 then Some (Ret false, u, term) else
  let '(b, u) := UART.read 1 u in
  match b with
  | [] => Some (Ret false, u, term)
  | b0 :: _ =>
    if negb (b0 =? 2) then Some (Ret false, u, term) else
    let '(cmd, u) := UART.read 1 u in
    if bool_decide (cmd = []) || negb (bool_decide (cmd = [83]))
    then Some (Ret false, u, term) else
    let '(hdr, u) := UART.read 2 u in
    match hdr with
    | nrows :: ncols :: _ =>
        let total := nrows * ncols in
        match read_payload fuel total u [] with
        | None => None
        | Some (u, data) =>
            let '(etx, u) := UART.read 1 u in
            match etx with
            | [] => Some (Ret false, u, term)
            | e :: _ =>
                if negb (e =? 3) then Some (Ret false, u, term) else
                match apply_snapshot term nrows ncols data with
                | (Ret _, term') => Some (Ret true, u, term')
                | (Raise ex, term') => Some (Raise ex, u, term')
                end
            end
        end
    | _ => Some (Ret false, u, term)
    end
  end.

(** One turn of the [while True] loop: poll for a frame and render when
    one was applied. *)
Definition main_step (fuel : nat) (u : UART.t) (d : Device)
    : option (outcome unit * UART.t * Device) :=
  match read_frame fuel u (fst d) with
  | None => None
  | Some (Ret true, u', term') =>
      let '(o, d') := show term' (snd d) in Some (o, u', d')
  | Some (Ret false, u', term') => Some (Ret (), u', (term', snd d))
  | Some (Raise ex, u', term') => Some (Raise ex, u', (term', snd d))
  end.

(** [n] turns of the loop; an uncaught exception ends it. *)
Fixpoint main_loop (fuel : nat) (n : nat) (u : UART.t) (d : Device)
    : option (outcome unit * UART.t * Device) :=
  match n with
  | O => Some (Ret (), u, d)
  | S n' =>
      match main_step fuel u d with
      | Some (Ret _, u', d') => main_loop fuel n' u' d'
      | stopped => stopped
      end
  end.

(** [on_btn_v] and [on_btn_h]: the state they touch is what was written
    to the UART. *)
Definition on_btn_v (tx : list Z) : outcome unit * list Z :=
  (Ret (), tx ++ [75; 69; 89; 58; 69; 78; 84; 69; 82; 10]).

Definition on_btn_h (tx : list Z) : outcome unit * list Z :=
  (Ret (), tx ++ [75; 69; 89; 58; 66; 65; 67; 75; 83; 80; 65; 67; 69; 10]).

(** ** Specification vocabulary *)

(** The sanitised grid of the protocol description: every byte outside
    0x20..0x7E becomes a space. *)
Definition sanitize_byte (b : Z) : Z :=
  if decide (32 <= b <= 126) then b else 32.

Definition sanitize (grid : list (list Z)) : list (list Z) :=
  fmap (M := list) (fmap (M := list) sanitize_byte) grid.

(** A grid of [nrows] lines of [ncols] cells each. *)
Definition grid_shape (nrows ncols : Z) (grid : list (list Z)) : Prop :=
  len grid = nrows /\ Forall (fun line => len line = ncols) grid.

(** The frame layout of the header comment:
    [0x02 'S' ROWS COLS <ROWS*COLS bytes> 0x03]. *)
Definition frame_header (nrows ncols : Z) : list Z := [2; 83; nrows; ncols].

Definition wire_frame (nrows ncols : Z) (grid : list (list Z)) : list Z :=
  frame_header nrows ncols ++ concat grid ++ [3].

(** The viewport invariant: both offsets within the grid. *)
Definition offsets_in_range (term : TerminalView.t) : Prop :=
  0 <= v_off term <= rows term - 1 /\ 0 <= h_off term <= cols term - 1.

(** The buffer really is [rows] lists of [cols] cells. *)
Definition buffer_shape (term : TerminalView.t) : Prop :=
  grid_shape (Z.max 0 (rows term)) (Z.max 0 (cols term)) (buffer term).

(** The callback that keeps the cumulative step sum. *)
Definition count_steps (direction : Z) (sum : Z) : outcome unit * Z :=
  (Ret (), sum + direction).

(** One turn of the knob as the sequence of pin levels (A, B) observed:
    00 -> 01 -> 11 -> 10 -> 00 and its reverse. *)
Definition cycle_forward : list (Z * Z) := [(0, 1); (1, 1); (1, 0); (0, 0)].
Definition cycle_reverse : list (Z * Z) := [(1, 0); (1, 1); (0, 1); (0, 0)].

Definition cycles (n : nat) (cycle : list (Z * Z)) : list (Z * Z) :=
  concat (replicate n cycle).

(** The UART after [k] calls when [X] is what is left unread of the
    bytes it started with: the first [k] chunks of the schedule have
    arrived behind [X]. *)
Definition settled (k : nat) (X : list Z) (sched : list (list Z)) : UART.t :=
  {| UART.rx := X ++ concat (take k sched); UART.incoming := drop k sched |}.

(** Everything the UART holds or will ever receive. *)
Definition pending (u : UART.t) : list Z :=
  UART.rx u ++ concat (UART.incoming u).

(** The states the firmware can be in: the initial view, then snapshots
    that were applied without an exception, and scroll steps. *)
Inductive reachable : TerminalView.t -> Prop :=
| reach_init nrows ncols : reachable (init nrows ncols)
| reach_snapshot term nrows ncols data term' :
    reachable term ->
    apply_snapshot term nrows ncols data = (Ret (), term') ->
    reachable term'
| reach_scroll_v term delta : reachable term -> reachable (scroll_v term delta)
| reach_scroll_h term delta : reachable term -> reachable (scroll_h term delta).

(** What holds of every reachable state, empty grids included. *)
Definition viewport_ok (term : TerminalView.t) : Prop :=
  buffer_shape term /\
  0 <= v_off term <= Z.max 0 (rows term - 1) /\
  0 <= h_off term <= Z.max 0 (cols term - 1).

(** ** class LCD

    The display sees the pins only through the strobe on E: it takes in
    RS and D4..D7 on each falling edge.  [strobes] records the levels
    the pins had at every [_pulse]. *)

Module LCD.

Record Lines : Type := {
  at_rs : Z;
  at_d4 : Z;
  at_d5 : Z;
  at_d6 : Z;
  at_d7 : Z
}.

Record t : Type := {
  cols : Z;
  rows : Z;
  rs : Z;
  e : Z;
  d4 : Z;
  d5 : Z;
  d6 : Z;
  d7 : Z;
  strobes : list Lines
}.

(** [_pulse]: E goes high, then low. *)
Definition _pulse (self : t) : t :=
  {| cols := cols self; rows := rows self; rs := rs self; e := 0;
     d4 := d4 self; d5 := d5 self; d6 := d6 self; d7 := d7 self;
     strobes := strobes self ++
       [{| at_rs := rs self; at_d4 := d4 self; at_d5 := d5 self;
           at_d6 := d6 self; at_d7 := d7 self |}] |}.

Definition _write4 (self : t) (val : Z) : t :=
  _pulse
    {| cols := cols self; rows := rows self; rs := rs self; e := e self;
       d4 := Z.land (Z.shiftr val 0) 1;
       d5 := Z.land (Z.shiftr val 1) 1;
       d6 := Z.land (Z.shiftr val 2) 1;
       d7 := Z.land (Z.shiftr val 3) 1;
       strobes := strobes self |}.

(** [self.rs.value(v)] *)
Definition set_rs (self : t) (v : Z) : t :=
  {| cols := cols self; rows := rows self; rs := v; e := e self;
     d4 := d4 self; d5 := d5 self; d6 := d6 self; d7 := d7 self;
     strobes := strobes self |}.

Definition command (self : t) (cmd : Z) : t :=
  let self := set_rs self 0 in
  let self := _write4 self (Z.shiftr cmd 4) in
  _write4 self (Z.land cmd 15).

(** [write_char]: [ch] is the character's code point, [ord(ch)]. *)
Definition write_char (self : t) (ch : Z) : t :=
  let self := set_rs self 1 in
  let b := ch in
  let self := _write4 self (Z.shiftr b 4) in
  _write4 self (Z.land b 15).

Definition clear (self : t) : t := command self 1.

Definition set_cursor (self : t) (col row : Z) : t :=
  let row := Z.max 0 (Z.min (rows self - 1) row) in
  let col := Z.max 0 (Z.min (cols self - 1) col) in
  let addr := col + 64 * row in
  command self (Z.lor 128 addr).

Definition write_str (self : t) (s : list Z) : t :=
  foldl write_char self (slice s 0 (cols self)).

(** [__init__]: all pins low, then the 4-bit start-up sequence. *)
Definition init (ncols nrows : Z) : t :=
  let self :=
    {| cols := ncols; rows := nrows; rs := 0; e := 0;
       d4 := 0; d5 := 0; d6 := 0; d7 := 0; strobes := [] |} in
  let self := _write4 self 3 in
  let self := _write4 self 3 in
  let self := _write4 self 3 in
  let self := _write4 self 2 in
  let self := command self 40 in
  let self := command self 8 in
  let self := clear self in
  let self := command self 6 in
  command self 12.

End LCD.

(** [render()] on the display itself.  [lcd.set_cursor(0,0)] runs before
    [lines[0]] is looked up, and so on down the two statements. *)
Definition render_lcd (lcd : LCD.t) (term : TerminalView.t)
    : outcome unit * LCD.t :=
  match window_lines term LCD_COLS LCD_ROWS with
  | Raise ex => (Raise ex, lcd)
  | Ret lines =>
      let lcd := LCD.set_cursor lcd 0 0 in
      match index lines 0 with
      | None => (Raise IndexError, lcd)
      | Some l0 =>
          let lcd := LCD.write_str lcd l0 in
          let lcd := LCD.set_cursor lcd 0 1 in
          match index lines 1 with
          | None => (Raise IndexError, lcd)
          | Some l1 => (Ret (), LCD.write_str lcd l1)
          end
      end
  end.

(** ** pi_bridge.py: the serial branch of the loop

    [ser] is opened with [timeout=0], so [readline] returns what is
    there up to and including the first newline, and the whole of it
    when there is no newline yet. *)

Module Serial.

Fixpoint readline (avail : list Z) : list Z * list Z :=
  match avail with
  | [] => ([], [])
  | b :: rest =>
      if b =? 10 then ([b], rest)
      else let '(line, rest') := readline rest in (b :: line, rest')
  end.

(** [bytes.decode("ascii", "ignore")]: bytes above 127 are dropped. *)
Definition decode_ascii_ignore (line : list Z) : list Z :=
  filter (fun b => b < 128) line.

(** [str.isspace] on the ASCII range: TAB..CR, FS..US and space. *)
Definition is_space (ch : Z) : bool :=
  (9 <=? ch) && (ch <=? 13) || (28 <=? ch) && (ch <=? 32).

Fixpoint lstrip (s : list Z) : list Z :=
  match s with
  | [] => []
  | ch :: s' => if is_space ch then lstrip s' else s
  end.

Definition rstrip (s : list Z) : list Z := reverse (lstrip (reverse s)).

(** [str.strip()] *)
Definition strip (s : list Z) : list Z := rstrip (lstrip s).

Definition KEY_ENTER : list Z := [75; 69; 89; 58; 69; 78; 84; 69; 82].
Definition KEY_BACKSPACE : list Z :=
  [75; 69; 89; 58; 66; 65; 67; 75; 83; 80; 65; 67; 69].
Definition TXT : list Z := [84; 88; 84; 58].

(** What [pi_bridge.py] writes to the pty for one line read. *)
Definition relay (line : list Z) : list Z :=
  match line with
  | [] => []
  | _ =>
      let line := strip (decode_ascii_ignore line) in
      if bool_decide (line = KEY_ENTER) then [10]
      else if bool_decide (line = KEY_BACKSPACE) then [127]
      else []
  end.

(** The same in the updated bridge, which also knows [TXT:<text>];
    [payload.encode("ascii", "ignore")] drops what is above 127. *)
Definition relay_updated (line : list Z) : list Z :=
  match line with
  | [] => []
  | _ =>
      let text := strip (decode_ascii_ignore line) in
      if bool_decide (text = KEY_ENTER) then [10]
      else if bool_decide (text = KEY_BACKSPACE) then [127]
      else if bool_decide (slice text 0 4 = TXT)
      then filter (fun b => b < 128) (slice text 4 (len text))
      else []
  end.

(** One visit of the [if ser in rlist] branch: the bytes written to the
    pty and the bytes left on the serial port. *)
Definition serial_ready (avail : list Z) : list Z * list Z :=
  let '(line, rest) := readline avail in (relay line, rest).

End Serial.

(** ** More specification vocabulary *)

(** The nibble on D7..D4 at a strobe. *)
Definition nibble (l : LCD.Lines) : Z :=
  LCD.at_d4 l + 2 * LCD.at_d5 l + 4 * LCD.at_d6 l + 8 * LCD.at_d7 l.

(** The HD44780 in 4-bit mode takes two strobes per transfer, high
    nibble first: the transfers of a strobe sequence as pairs of RS and
    the byte. *)
Fixpoint transfers (ps : list LCD.Lines) : list (Z * Z) :=
  match ps with
  | hi :: lo :: ps' => (LCD.at_rs hi, 16 * nibble hi + nibble lo) :: transfers ps'
  | _ => []
  end.

(** The position of a phase on the Gray-code circle 00, 01, 11, 10. *)
Definition gray_index (phase : Z) : Z :=
  if phase =? 0 then 0 else if phase =? 1 then 1
  else if phase =? 3 then 2 else 3.

(** Pin levels are 0 or 1. *)
Definition level (x : Z) : Prop := x = 0 \/ x = 1.

(** A run of samples in which the phase never jumps across the circle:
    each sample is the last phase or one of its two neighbours. *)
Fixpoint no_skips (phase : Z) (pins : list (Z * Z)) : Prop :=
  match pins with
  | [] => True
  | (a, b) :: pins' =>
      let phase' := Z.lor (Z.shiftl a 1) b in
      level a /\ level b /\
      (gray_index phase' - gray_index phase) mod 4 <> 2 /\
      no_skips phase' pins'
  end.

(** Every cell of the buffer is printable ASCII. *)
Definition cells_printable (term : TerminalView.t) : Prop :=
  Forall (Forall (fun ch => 32 <= ch <= 126)) (buffer term).

(** The button handler run over a sequence of triggers (tick, pin level
    after the settle delay); the result counts the accepted ones. *)
Fixpoint triggers {St} (on_click : St -> outcome unit * St) (self : Button.t)
    (ts : list (Z * Z)) (s : St) : nat * Button.t * St :=
  match ts with
  | [] => (O, self, s)
  | (now, pin) :: ts' =>
      let '(accepted, self', s') := Button._handler on_click self now pin s in
      let '(n, self'', s'') := triggers on_click self' ts' s' in
      ((if accepted then S n else n), self'', s'')
  end.

(** Row [r] of a screen as the frame carries it: the line sanitised,
    right-padded with spaces and cut to the screen's width; a missing
    line is blank. *)
Definition normal_row (screen : PiBridge.Screen) (r : nat) : list Z :=
  take (Z.to_nat (PiBridge.columns screen))
    ((sanitize_byte <$> default [] (PiBridge.display screen !! r))
       ++ replicate (Z.to_nat (PiBridge.columns screen)) 32).

Definition normal_grid (screen : PiBridge.Screen) : list (list Z) :=
  normal_row screen <$> seq 0 (Z.to_nat (PiBridge.lines screen)).

Definition printable (ch : Z) : Prop := 32 <= ch <= 126.

(** A byte string cut into [nrows] consecutive rows of [ncols] bytes. *)
Fixpoint rows_of (nrows ncols : nat) (data : list Z) : list (list Z) :=
  match nrows with
  | O => []
  | S n => take ncols data :: rows_of n ncols (drop ncols data)
  end.

(** The two strobes that carry one byte with a given RS level: what
    [_write4 (b >> 4)] and [_write4 (b & 0x0F)] put on the pins. *)
Definition nibble_lines (rs val : Z) : LCD.Lines :=
  {| LCD.at_rs := rs;
     LCD.at_d4 := Z.land (Z.shiftr val 0) 1;
     LCD.at_d5 := Z.land (Z.shiftr val 1) 1;
     LCD.at_d6 := Z.land (Z.shiftr val 2) 1;
     LCD.at_d7 := Z.land (Z.shiftr val 3) 1 |}.

Definition byte_strobes (rs b : Z) : list LCD.Lines :=
  [nibble_lines rs (Z.shiftr b 4); nibble_lines rs (Z.land b 15)].

(** The transfers that put a string on the display: RS high, one byte
    per character. *)
Definition data_bytes (s : list Z) : list (Z * Z) :=
  (fun ch => (1, ch mod 256)) <$> s.

(** ** The firmware copy kept at the end of pi_bridge.py

    [Term.window] there takes the slice [self.buf[r][self.h:self.h+w]]
    and leaves the clipping at the row's end to the slice itself. *)

Module Term.

Definition window_line (self : TerminalView.t) (w rr : Z) : outcome (list Z) :=
  let r := Z.min (rows self - 1) (v_off self + rr) in
  match index (buffer self) r with
  | None => Raise IndexError
  | Some row =>
      let s := slice row (h_off self) (h_off self + w) in
      Ret (if len s <? w then s ++ spaces (w - len s) else s)
  end.

Fixpoint window_loop (self : TerminalView.t) (w : Z) (rrs : list Z)
    (out : list (list Z)) : outcome (list (list Z)) :=
  match rrs with
  | [] => Ret out
  | rr :: rrs' =>
      match window_line self w rr with
      | Ret s => window_loop self w rrs' (out ++ [s])
      | Raise ex => Raise ex
      end
  end.

Definition window (self : TerminalView.t) (w h : Z) : outcome (list (list Z)) :=
  window_loop self w (range h) [].

End Term.

(** * Properties *)

(** ** Viewport offsets *)

Section Snapshot_fields.
Variables (term : TerminalView.t) (nrows ncols : Z) (data : list Z).

Lemma apply_snapshot_dims :
  rows (snd (apply_snapshot term nrows ncols data)) = nrows /\
  cols (snd (apply_snapshot term nrows ncols data)) = ncols.
Proof.
  unfold apply_snapshot.
  destruct (negb (nrows =? rows term) || negb (ncols =? cols term)) eqn:E;
    destruct (fill_rows _ _ _ _ _) as [[o buf] idx]; simpl; [done|].
  apply orb_false_elim in E as [E1 E2].
  apply negb_false_iff in E1, E2. lia.
Qed.

Lemma apply_snapshot_v_off :
  v_off (snd (apply_snapshot term nrows ncols data)) =
  if negb (nrows =? rows term) || negb (ncols =? cols term)
  then 0 else v_off term.
Proof.
  unfold apply_snapshot.
  destruct (negb (nrows =? rows term) || negb (ncols =? cols term));
    destruct (fill_rows _ _ _ _ _) as [[o buf] idx]; done.
Qed.

Lemma apply_snapshot_h_off :
  h_off (snd (apply_snapshot term nrows ncols data)) =
  if negb (nrows =? rows term) || negb (ncols =? cols term)
  then 0 else h_off term.
Proof.
  unfold apply_snapshot.
  destruct (negb (nrows =? rows term) || negb (ncols =? cols term));
    destruct (fill_rows _ _ _ _ _) as [[o buf] idx]; done.
Qed.

Lemma resized_true :
  (nrows, ncols) <> (rows term, cols term) ->
  negb (nrows =? rows term) || negb (ncols =? cols term) = true.
Proof.
  intros Hne.
  destruct (Z.eqb_spec nrows (rows term)) as [->|]; [|done].
  destruct (Z.eqb_spec ncols (cols term)) as [->|]; [|done].
  by destruct Hne.
Qed.

Lemma resized_false :
  (nrows, ncols) = (rows term, cols term) ->
  negb (nrows =? rows term) || negb (ncols =? cols term) = false.
Proof.
  intros [= -> ->]. by rewrite !Z.eqb_refl.
Qed.
End Snapshot_fields.

(** C7. [apply_snapshot] puts both scroll offsets back to (0,0) when the
    dimensions it is given differ from the current ones, and leaves both
    as they are when the dimensions are the current ones; this holds for
    every state and payload, whether or not the fill then raises. *)
Theorem apply_snapshot_offsets :
  forall (term : TerminalView.t) (nrows ncols : Z) (data : list Z),
    let term' := snd (apply_snapshot term nrows ncols data) in
    ((nrows, ncols) <> (rows term, cols term) ->
       v_off term' = 0 /\ h_off term' = 0) /\
    ((nrows, ncols) = (rows term, cols term) ->
       v_off term' = v_off term /\ h_off term' = h_off term).
Proof.
  intros term nrows ncols data term'. subst term'.
  rewrite apply_snapshot_v_off, apply_snapshot_h_off.
  split; intros H.
  - by rewrite resized_true.
  - by rewrite resized_false.
Qed.

Lemma apply_snapshot_offsets_witness :
  let term := scroll_h (scroll_v (init 24 80) 7) 3 in
  (v_off (snd (apply_snapshot term 2 2 [65; 66; 67; 68])) = 0 /\
   h_off (snd (apply_snapshot term 2 2 [65; 66; 67; 68])) = 0) /\
  (v_off (snd (apply_snapshot term 24 80 [])) = 7 /\
   h_off (snd (apply_snapshot term 24 80 [])) = 3).
Proof.
  intros term. split.
  - apply (apply_snapshot_offsets term 2 2 [65; 66; 67; 68]). discriminate.
  - apply (apply_snapshot_offsets term 24 80 []). reflexivity.
Defined.

Lemma scroll_v_in_range term delta :
  1 <= rows term -> 0 <= h_off term <= cols term - 1 ->
  offsets_in_range (scroll_v term delta).
Proof. unfold offsets_in_range; simpl; lia. Qed.

Lemma scroll_h_in_range term delta :
  1 <= cols term -> 0 <= v_off term <= rows term - 1 ->
  offsets_in_range (scroll_h term delta).
Proof. unfold offsets_in_range; simpl; lia. Qed.

Lemma apply_snapshot_in_range term nrows ncols data :
  offsets_in_range term -> 1 <= nrows -> 1 <= ncols ->
  offsets_in_range (snd (apply_snapshot term nrows ncols data)).
Proof.
  intros [Hv Hh] Hr Hc. unfold offsets_in_range.
  destruct (apply_snapshot_dims term nrows ncols data) as [-> ->].
  rewrite apply_snapshot_v_off, apply_snapshot_h_off.
  destruct (negb (nrows =? rows term) || negb (ncols =? cols term)) eqn:E.
  - lia.
  - apply orb_false_elim in E as [E1 E2].
    apply negb_false_iff in E1, E2. lia.
Qed.

(** C6. Both offsets stay within [0, dimension-1]: this holds in the
    initial state of a grid with at least one row and one column, and
    [apply_snapshot] (to such a grid), [scroll_v] and [scroll_h] (with
    any delta) keep it. *)
Theorem offsets_invariant :
  (forall nrows ncols, 1 <= nrows -> 1 <= ncols ->
     offsets_in_range (init nrows ncols)) /\
  (forall term nrows ncols data,
     offsets_in_range term -> 1 <= nrows -> 1 <= ncols ->
     offsets_in_range (snd (apply_snapshot term nrows ncols data))) /\
  (forall term delta,
     offsets_in_range term -> offsets_in_range (scroll_v term delta)) /\
  (forall term delta,
     offsets_in_range term -> offsets_in_range (scroll_h term delta)).
Proof.
  split; [|split; [|split]].
  - intros nrows ncols Hr Hc. unfold offsets_in_range; simpl; lia.
  - intros term nrows ncols data. apply apply_snapshot_in_range.
  - intros term delta [Hv Hh]. apply scroll_v_in_range; lia.
  - intros term delta [Hv Hh]. apply scroll_h_in_range; lia.
Qed.

Lemma offsets_invariant_witness :
  offsets_in_range
    (scroll_h
       (scroll_v (snd (apply_snapshot (init 24 80) 2 3 [65; 66; 67; 68; 69; 70]))
          100)
       (-7)).
Proof.
  destruct offsets_invariant as (Hinit & Hsnap & Hv & Hh).
  apply Hh, Hv, Hsnap; [apply Hinit| |]; lia.
Defined.

(** ** Quadrature decoder *)

Lemma run_app {S} (on_step : Z -> S -> outcome unit * S) pins1 pins2 self s :
  Encoder.run on_step self (pins1 ++ pins2) s =
  Encoder.run on_step (Encoder.run on_step self pins1 s).1 pins2
    (Encoder.run on_step self pins1 s).2.
Proof.
  revert self s. induction pins1 as [|[a b] pins1 IH]; intros self s; [done|].
  simpl. destruct (Encoder._handler on_step self a b s) as [self' s'].
  apply IH.
Qed.

Lemma run_cycle_forward sum :
  Encoder.run count_steps (Encoder.init 0 0) cycle_forward sum =
  (Encoder.init 0 0, sum + 4).
Proof. cbv -[Z.add]. f_equal. lia. Qed.

Lemma run_cycle_reverse sum :
  Encoder.run count_steps (Encoder.init 0 0) cycle_reverse sum =
  (Encoder.init 0 0, sum - 4).
Proof. cbv -[Z.add Z.sub]. f_equal. lia. Qed.

Lemma run_cycles_forward (n : nat) sum :
  Encoder.run count_steps (Encoder.init 0 0) (cycles n cycle_forward) sum =
  (Encoder.init 0 0, sum + 4 * Z.of_nat n).
Proof.
  revert sum. induction n as [|n IH]; intros sum.
  - cbn. f_equal. lia.
  - unfold cycles in *. rewrite replicate_S, concat_cons, run_app.
    rewrite run_cycle_forward. simpl. rewrite IH. f_equal. lia.
Qed.

Lemma run_cycles_reverse (n : nat) sum :
  Encoder.run count_steps (Encoder.init 0 0) (cycles n cycle_reverse) sum =
  (Encoder.init 0 0, sum - 4 * Z.of_nat n).
Proof.
  revert sum. induction n as [|n IH]; intros sum.
  - cbn. f_equal. lia.
  - unfold cycles in *. rewrite replicate_S, concat_cons, run_app.
    rewrite run_cycle_reverse. simpl. rewrite IH. f_equal. lia.
Qed.

(** C8. Starting from phase 00 with a zero sum, N turns through
    00 -> 01 -> 11 -> 10 -> 00 leave the cumulative step sum at +4N and N
    turns through the reverse sequence leave it at -4N; and when the
    phase read equals the last phase the handler changes nothing and
    does not call its callback, whatever the callback is. *)
Theorem quadrature_cycles :
  forall n : nat,
    (Encoder.run count_steps (Encoder.init 0 0) (cycles n cycle_forward) 0).2
      = 4 * Z.of_nat n /\
    (Encoder.run count_steps (Encoder.init 0 0) (cycles n cycle_reverse) 0).2
      = - (4 * Z.of_nat n) /\
    (forall S (on_step : Z -> S -> outcome unit * S) self a b s,
       Z.lor (Z.shiftl a 1) b = Encoder.last self ->
       Encoder._handler on_step self a b s = (self, s)).
Proof.
  intros n. split; [|split].
  - by rewrite run_cycles_forward.
  - rewrite run_cycles_reverse. simpl. lia.
  - intros S on_step self a b s Heq. unfold Encoder._handler.
    by rewrite Heq, Z.eqb_refl.
Qed.

Lemma quadrature_cycles_witness :
  (Encoder.run count_steps (Encoder.init 0 0) (cycles 3 cycle_forward) 0).2 = 12 /\
  (Encoder.run count_steps (Encoder.init 0 0) (cycles 3 cycle_reverse) 0).2 = -12 /\
  Encoder._handler count_steps (Encoder.init 1 1) 1 1 5 = (Encoder.init 1 1, 5).
Proof.
  destruct (quadrature_cycles 3) as (Hf & Hr & Hsame).
  split; [exact Hf|split; [exact Hr|]].
  apply Hsame. reflexivity.
Defined.

(** ** Button debounce *)

Lemma half_period : TICKS_PERIOD / 2 = 536870912.
Proof. reflexivity. Qed.

Lemma ticks_diff_near t1 t2 :
  - (TICKS_PERIOD / 2) <= t1 - t2 < TICKS_PERIOD / 2 -> ticks_diff t1 t2 = t1 - t2.
Proof.
  rewrite half_period. intros H. unfold ticks_diff. rewrite half_period.
  change TICKS_PERIOD with 1073741824.
  rewrite Z.mod_small; lia.
Qed.

(** A trigger that is turned away changes neither the button nor what
    the callback works on. *)
Lemma debounce_reject_no_effect {S} (on_click : S -> outcome unit * S)
    self now pin s self' s' :
  Button._handler on_click self now pin s = (false, self', s') ->
  self' = self /\ s' = s.
Proof.
  unfold Button._handler.
  destruct (ticks_diff now (Button.last_time self) <? BTN_DEBOUNCE_MS).
  - by intros [= <- <-].
  - by destruct (pin =? 0).
Qed.

(** C9, as the code has it.  For a button whose first trigger at [t1]
    passes the debounce test (at least the interval after the last
    accepted time, which starts at 0), and a second trigger at
    [t2 > t1]: less than the interval later, the decisions are
    (true, false) and the second trigger leaves the button's last
    accepted time, and everything else, as the first left it; at least
    the interval and less than half the ticks period later, they are
    (true, true).  In general a rejected trigger has no effect. *)
Theorem debounce_pair :
  forall S (on_click : S -> outcome unit * S) self t1 t2 pin1 pin2 s,
    BTN_DEBOUNCE_MS <= ticks_diff t1 (Button.last_time self) ->
    t1 < t2 ->
    let r1 := Button._handler on_click self t1 pin1 s in
    let r2 := Button._handler on_click r1.1.2 t2 pin2 r1.2 in
    Button.last_time r1.1.2 = t1 /\
    (t2 - t1 < BTN_DEBOUNCE_MS ->
       (r1.1.1, r2.1.1) = (true, false) /\ r2.1.2 = r1.1.2 /\ r2.2 = r1.2) /\
    (BTN_DEBOUNCE_MS <= t2 - t1 < TICKS_PERIOD / 2 ->
       (r1.1.1, r2.1.1) = (true, true) /\ Button.last_time r2.1.2 = t2) /\
    (forall now pin st,
       (Button._handler on_click st.1 now pin st.2).1.1 = false ->
       Button._handler on_click st.1 now pin st.2 = (false, st.1, st.2)).
Proof.
  intros S on_click self t1 t2 pin1 pin2 s H1 Hlt r1 r2.
  assert (Hr1 : r1.1.1 = true /\ Button.last_time r1.1.2 = t1).
  { subst r1. unfold Button._handler.
    destruct (Z.ltb_spec (ticks_diff t1 (Button.last_time self)) BTN_DEBOUNCE_MS);
      [lia|]. by destruct (pin1 =? 0). }
  destruct Hr1 as [Ha1 Hl1].
  split; [done|]. split; [|split].
  - intros Hnear. subst r2. unfold Button._handler at 1 2 3.
    rewrite Hl1, ticks_diff_near
      by (rewrite half_period; unfold BTN_DEBOUNCE_MS in Hnear; lia).
    destruct (Z.ltb_spec (t2 - t1) BTN_DEBOUNCE_MS); [|lia].
    simpl. by rewrite Ha1.
  - intros Hfar. subst r2. unfold Button._handler at 1 2.
    rewrite Hl1, ticks_diff_near
      by (unfold BTN_DEBOUNCE_MS in Hfar; lia).
    destruct (Z.ltb_spec (t2 - t1) BTN_DEBOUNCE_MS); [lia|].
    rewrite Ha1. by destruct (pin2 =? 0).
  - intros now pin [b st]. simpl. unfold Button._handler.
    destruct (ticks_diff now (Button.last_time b) <? BTN_DEBOUNCE_MS); [done|].
    by destruct (pin =? 0).
Qed.

Lemma debounce_pair_witness :
  let r1 := Button._handler on_btn_v Button.init 1000 0 [] in
  let r2 := Button._handler on_btn_v r1.1.2 1100 0 r1.2 in
  let r3 := Button._handler on_btn_v r1.1.2 1200 0 r1.2 in
  (r1.1.1, r2.1.1) = (true, false) /\ r2.1.2 = r1.1.2 /\
  (r1.1.1, r3.1.1) = (true, true).
Proof.
  intros r1 r2 r3.
  assert (H0 : BTN_DEBOUNCE_MS <= ticks_diff 1000 (Button.last_time Button.init))
    by (vm_compute; discriminate).
  split; [|split].
  - apply (debounce_pair _ on_btn_v Button.init 1000 1100 0 0 [] H0); vm_compute;
      [reflexivity|reflexivity].
  - apply (debounce_pair _ on_btn_v Button.init 1000 1100 0 0 [] H0); vm_compute;
      [reflexivity|reflexivity].
  - apply (debounce_pair _ on_btn_v Button.init 1000 1200 0 0 [] H0); vm_compute;
      [reflexivity|split; [discriminate|reflexivity]].
Defined.

(** C9 as stated fails twice over.  A first trigger less than the
    interval after tick 0 is itself rejected, so two triggers at 100 and
    150 give (false, false); and because [ticks_diff] is a difference
    modulo the ticks period, a second trigger half a period after the
    first is rejected although it comes much more than the interval
    later. *)
Lemma debounce_pair_counterexample :
  (let r1 := Button._handler on_btn_v Button.init 100 0 [] in
   let r2 := Button._handler on_btn_v r1.1.2 150 0 r1.2 in
   100 < 150 /\ 150 - 100 < BTN_DEBOUNCE_MS /\
   (r1.1.1, r2.1.1) = (false, false)) /\
  (let r1 := Button._handler on_btn_v Button.init 1000 0 [] in
   let r2 := Button._handler on_btn_v r1.1.2 (1000 + 2 ^ 29) 0 r1.2 in
   1000 < 1000 + 2 ^ 29 /\ BTN_DEBOUNCE_MS <= (1000 + 2 ^ 29) - 1000 /\
   (r1.1.1, r2.1.1) = (true, false)).
Proof. vm_compute. repeat split; discriminate. Qed.

(** ** Encoder callbacks *)

Lemma show_term term lcd : (show term lcd).2.1 = term.
Proof. unfold show. by destruct (render term). Qed.

(** C10. The vertical encoder's callback scrolls by the negated
    direction and the horizontal one by the direction itself.  So a
    forward step (+1) on the vertical encoder, wired through
    [Encoder._handler], moves the vertical offset one row down towards
    0, where the clamp holds it, and a forward step on the horizontal
    encoder moves the horizontal offset one column up towards
    [cols - 1], where the clamp holds it. *)
Theorem encoder_callbacks_direction :
  forall (d : Z) (dev : Device),
    d = 1 \/ d = -1 ->
    (on_v_step d dev).2.1 = scroll_v dev.1 (- d) /\
    (on_h_step d dev).2.1 = scroll_h dev.1 d /\
    (forall self a b,
       Z.lor (Z.shiftl a 1) b <> Encoder.last self ->
       Encoder.forward (Encoder.last self) (Z.lor (Z.shiftl a 1) b) = true ->
       (Encoder._handler on_v_step self a b dev).2.1 = scroll_v dev.1 (-1) /\
       (Encoder._handler on_h_step self a b dev).2.1 = scroll_h dev.1 1) /\
    (offsets_in_range dev.1 ->
       let v' := v_off (on_v_step 1 dev).2.1 in
       let h' := h_off (on_h_step 1 dev).2.1 in
       v' = Z.max 0 (v_off dev.1 - 1) /\ v' <= v_off dev.1 /\
       (0 < v_off dev.1 -> v' < v_off dev.1) /\
       h' = Z.min (cols dev.1 - 1) (h_off dev.1 + 1) /\ h_off dev.1 <= h' /\
       (h_off dev.1 < cols dev.1 - 1 -> h_off dev.1 < h')).
Proof.
  intros d dev Hd. unfold on_v_step, on_h_step. rewrite !show_term.
  split; [done|]. split; [done|]. split.
  - intros self a b Hne Hfwd. unfold Encoder._handler.
    apply Z.eqb_neq in Hne. rewrite Hne, Hfwd.
    unfold on_v_step, on_h_step. simpl. by rewrite !show_term.
  - intros [Hv Hh]. simpl. lia.
Qed.

Lemma encoder_callbacks_direction_witness :
  let dev : Device := (scroll_h (scroll_v (init 24 80) 5) 5, []) in
  v_off (Encoder._handler on_v_step (Encoder.init 0 0) 0 1 dev).2.1 = 4 /\
  h_off (Encoder._handler on_h_step (Encoder.init 0 0) 0 1 dev).2.1 = 6.
Proof.
  intros dev.
  destruct (encoder_callbacks_direction 1 dev (or_introl eq_refl))
    as (_ & _ & Hwired & _).
  destruct (Hwired (Encoder.init 0 0) 0 1) as [Hv Hh];
    [vm_compute; discriminate|reflexivity|].
  rewrite Hv, Hh. split; reflexivity.
Defined.

(** ** Filling the buffer *)

Lemma cell_sanitize b : cell b = sanitize_byte b.
Proof.
  unfold cell, sanitize_byte.
  destruct (Z.leb_spec 32 b), (Z.leb_spec b 126); simpl;
    destruct (decide (32 <= b <= 126)); lia.
Qed.

Lemma sanitize_byte_idem b : sanitize_byte (sanitize_byte b) = sanitize_byte b.
Proof.
  unfold sanitize_byte.
  destruct (decide (32 <= b <= 126)) as [H|H].
  - by rewrite decide_True.
  - by rewrite decide_True by lia.
Qed.

Lemma fill_cols_ok data r suf :
  forall pre ds dpre dpost buf,
    buf !! r = Some (pre ++ suf) ->
    data = dpre ++ ds ++ dpost ->
    length ds = length suf ->
    fill_cols data r (seq (length pre) (length suf)) buf (length dpre) =
    (Ret (), <[r := pre ++ (cell <$> ds)]> buf, (length dpre + length suf)%nat).
Proof.
  induction suf as [|x suf IH]; intros pre ds dpre dpost buf Hrow Hdata Hlen.
  - destruct ds; [|done]. simpl.
    rewrite list_insert_id by done. by rewrite Nat.add_0_r.
  - destruct ds as [|d ds]; [done|]. simpl in Hlen. simpl.
    assert (Hd : data !! length dpre = Some d)
      by (rewrite Hdata; by apply list_lookup_middle).
    rewrite Hd, Hrow.
    rewrite decide_True by (rewrite length_app; simpl; lia).
    assert (Hins : <[length pre := cell d]> (pre ++ x :: suf)
                   = (pre ++ [cell d]) ++ suf).
    { rewrite insert_app_r_alt, Nat.sub_diag by lia. simpl.
      by rewrite <- app_assoc. }
    rewrite Hins.
    specialize (IH (pre ++ [cell d]) ds (dpre ++ [d]) dpost
                  (<[r := (pre ++ [cell d]) ++ suf]> buf)).
    rewrite !length_app in IH. simpl in IH.
    rewrite !Nat.add_1_r in IH. rewrite IH.
    + rewrite list_insert_insert_eq, <- app_assoc. simpl.
      do 2 f_equal. lia.
    + apply list_lookup_insert_eq. by eapply lookup_lt_Some.
    + rewrite Hdata, <- app_assoc. done.
    + lia.
Qed.

Lemma fill_rows_ok data (ncols : nat) bsuf :
  forall bpre drows dpre dpost,
    Forall2 (fun row ds => length row = ncols /\ length ds = ncols) bsuf drows ->
    data = dpre ++ concat drows ++ dpost ->
    fill_rows data (seq (length bpre) (length bsuf)) ncols (bpre ++ bsuf)
      (length dpre) =
    (Ret (), bpre ++ (fmap (M := list) cell <$> drows),
     (length dpre + length (concat drows))%nat).
Proof.
  induction bsuf as [|row bsuf IH]; intros bpre drows dpre dpost Hshape Hdata.
  - apply Forall2_nil_inv_l in Hshape as ->. simpl.
    by rewrite Nat.add_0_r.
  - apply Forall2_cons_inv_l in Hshape as (ds & drows' & [Hrow Hds] & Hshape & ->).
    simpl.
    pose proof (fill_cols_ok data (length bpre) row [] ds dpre
                  (concat drows' ++ dpost) (bpre ++ row :: bsuf)) as Hcols.
    simpl in Hcols. rewrite Hrow in Hcols. rewrite Hcols; clear Hcols.
    + rewrite insert_app_r_alt, Nat.sub_diag by lia. simpl.
      specialize (IH (bpre ++ [cell <$> ds]) drows' (dpre ++ ds) dpost Hshape).
      rewrite !length_app in IH. simpl in IH.
      rewrite Nat.add_1_r, <- !app_assoc in IH. simpl in IH.
      rewrite Hds in IH. rewrite IH.
      * rewrite length_app, Hds. f_equal. lia.
      * rewrite Hdata. simpl. by rewrite <- !app_assoc.
    + by apply list_lookup_middle.
    + rewrite Hdata. simpl. by rewrite <- app_assoc.
    + lia.
Qed.

Lemma sanitize_cells grid : fmap (M := list) cell <$> grid = sanitize grid.
Proof.
  unfold sanitize. induction grid as [|line grid IH]; [done|].
  rewrite !fmap_cons, IH. f_equal.
  induction line as [|b line IHl]; [done|].
  by rewrite !fmap_cons, IHl, cell_sanitize.
Qed.

Lemma Forall2_of_shapes (n : nat) (l1 l2 : list (list Z)) :
  length l1 = length l2 ->
  Forall (fun x => length x = n) l1 ->
  Forall (fun x => length x = n) l2 ->
  Forall2 (fun a b => length a = n /\ length b = n) l1 l2.
Proof.
  revert l2. induction l1 as [|a l1 IH]; intros [|b l2] Hlen H1 H2; try done.
  inversion H1 as [|? ? Ha H1']; subst. inversion H2 as [|? ? Hb H2']; subst.
  constructor; [done|]. apply IH; [by injection Hlen|done|done].
Qed.

Lemma grid_shape_lengths nrows ncols grid :
  grid_shape nrows ncols grid ->
  length grid = Z.to_nat nrows /\
  Forall (fun line => length line = Z.to_nat ncols) grid.
Proof.
  intros [Hlen Hall]. unfold len in *. split; [lia|].
  eapply Forall_impl; [|exact Hall]. simpl. intros line Hl. lia.
Qed.

Lemma grid_shape_concat nrows ncols grid :
  grid_shape nrows ncols grid -> len (concat grid) = nrows * ncols.
Proof.
  intros [Hlen Hall]. unfold len in *. subst nrows.
  induction Hall as [|line grid Hline Hall IH]; [done|].
  simpl. rewrite length_app. lia.
Qed.

Lemma grid_shape_sanitize nrows ncols grid :
  grid_shape nrows ncols grid -> grid_shape nrows ncols (sanitize grid).
Proof.
  intros [Hlen Hall]. unfold grid_shape, sanitize, len in *.
  rewrite length_fmap. split; [done|].
  apply Forall_fmap. eapply Forall_impl; [|exact Hall].
  simpl. intros line Hl. by rewrite length_fmap.
Qed.

Lemma grid_shape_max nrows ncols grid :
  grid_shape nrows ncols grid ->
  grid_shape (Z.max 0 nrows) (Z.max 0 ncols) grid.
Proof.
  intros [Hlen Hall]. unfold grid_shape, len in *. split; [lia|].
  eapply Forall_impl; [|exact Hall]. simpl. intros line Hl. lia.
Qed.

Lemma blank_shape nrows ncols :
  length (blank nrows ncols) = Z.to_nat nrows /\
  Forall (fun line => length line = Z.to_nat ncols) (blank nrows ncols).
Proof.
  unfold blank, spaces. rewrite length_replicate. split; [done|].
  apply Forall_replicate, length_replicate.
Qed.

Lemma fill_grid buf nrows ncols grid :
  grid_shape nrows ncols grid ->
  length buf = Z.to_nat nrows ->
  Forall (fun line => length line = Z.to_nat ncols) buf ->
  fill_rows (concat grid) (seq 0 (Z.to_nat nrows)) (Z.to_nat ncols) buf 0 =
  (Ret (), sanitize grid, length (concat grid)).
Proof.
  intros Hgrid Hlen Hbuf.
  destruct (grid_shape_lengths _ _ _ Hgrid) as [Hglen Hgall].
  pose proof (fill_rows_ok (concat grid) (Z.to_nat ncols) buf [] grid [] []) as H.
  simpl in H. rewrite Hlen, sanitize_cells in H. apply H.
  - apply Forall2_of_shapes; [lia|done|done].
  - by rewrite app_nil_r.
Qed.

(** What [apply_snapshot] does with a payload of the right size: the
    buffer becomes the sanitised grid, the dimensions are the new ones,
    and no exception is raised. *)
Lemma apply_snapshot_ok term nrows ncols grid :
  buffer_shape term ->
  grid_shape nrows ncols grid ->
  apply_snapshot term nrows ncols (concat grid) =
  (Ret (),
   {| rows := nrows; cols := ncols; buffer := sanitize grid;
      v_off := (if negb (nrows =? rows term) || negb (ncols =? cols term)
                then 0 else v_off term);
      h_off := (if negb (nrows =? rows term) || negb (ncols =? cols term)
                then 0 else h_off term) |}).
Proof.
  intros Hterm Hgrid. unfold apply_snapshot.
  destruct (negb (nrows =? rows term) || negb (ncols =? cols term)) eqn:E.
  - simpl. destruct (blank_shape nrows ncols) as [Hl Ha].
    by rewrite (fill_grid _ _ _ _ Hgrid Hl Ha).
  - apply orb_false_elim in E as [E1 E2].
    apply negb_false_iff in E1, E2.
    apply Z.eqb_eq in E1, E2. subst nrows ncols.
    destruct Hterm as [Hlen Hall]. destruct Hgrid as [Hglen Hgall].
    rewrite (fill_grid (buffer term) (rows term) (cols term) grid).
    + done.
    + by split.
    + unfold len in *. lia.
    + eapply Forall_impl; [|exact Hall]. simpl. unfold len. intros line Hl. lia.
Qed.

Lemma apply_snapshot_shape term nrows ncols grid :
  buffer_shape term ->
  grid_shape nrows ncols grid ->
  buffer_shape (snd (apply_snapshot term nrows ncols (concat grid))).
Proof.
  intros Hterm Hgrid. rewrite apply_snapshot_ok by done.
  unfold buffer_shape. simpl. by apply grid_shape_max, grid_shape_sanitize.
Qed.

Lemma init_shape nrows ncols : buffer_shape (init nrows ncols).
Proof.
  destruct (blank_shape nrows ncols) as [Hl Ha].
  unfold buffer_shape, grid_shape, len. simpl. split; [lia|].
  eapply Forall_impl; [|exact Ha]. simpl. intros line Hline. lia.
Qed.

(** ** The UART *)

Lemma settled_0 X sched :
  {| UART.rx := X; UART.incoming := sched |} = settled 0 X sched.
Proof. unfold settled. by rewrite take_0, drop_0, app_nil_r. Qed.

Lemma arrive_settled k X sched :
  UART.arrive (settled k X sched) = settled (S k) X sched.
Proof.
  unfold UART.arrive, settled. simpl.
  destruct (drop k sched) as [|chunk later] eqn:E.
  - apply drop_nil_inv in E.
    by rewrite (take_ge sched k), (take_ge sched (S k)), (drop_ge sched (S k))
      by lia.
  - assert (Hk : sched !! k = Some chunk).
    { rewrite <- (Nat.add_0_r k), <- lookup_drop. by rewrite E. }
    rewrite (take_S_r _ _ _ Hk), concat_app. simpl.
    rewrite (drop_S _ _ _ Hk) in E. injection E as <-.
    by rewrite app_nil_r, app_assoc.
Qed.

Lemma any_settled k X sched :
  UART.any (settled k X sched) =
  (len (X ++ concat (take (S k) sched)), settled (S k) X sched).
Proof. unfold UART.any. by rewrite arrive_settled. Qed.

(** A read of bytes that are all there returns exactly them. *)
Lemma read_settled n bs k X sched :
  Z.to_nat n = length bs ->
  UART.read n (settled k (bs ++ X) sched) = (bs, settled (S k) X sched).
Proof.
  intros Hn. unfold UART.read. rewrite arrive_settled. unfold settled. simpl.
  rewrite <- app_assoc.
  by rewrite (take_app_length' bs), (drop_app_length' bs) by done.
Qed.

Lemma read_settled_1 b k X sched :
  UART.read 1 (settled k (b :: X) sched) = ([b], settled (S k) X sched).
Proof. by apply (read_settled 1 [b]). Qed.

Lemma read_settled_2 b1 b2 k X sched :
  UART.read 2 (settled k (b1 :: b2 :: X) sched)
  = ([b1; b2], settled (S k) X sched).
Proof. by apply (read_settled 2 [b1; b2]). Qed.

Lemma read_payload_done fuel total u data :
  total <= len data -> read_payload fuel total u data = Some (u, data).
Proof.
  intros H. destruct fuel; simpl;
    by destruct (Z.ltb_spec (len data) total); [lia|].
Qed.

(** One turn of the payload loop: whatever the read returned is appended
    ([None] and [b''] append nothing). *)
Lemma read_payload_step fuel total u data :
  len data < total ->
  read_payload (S fuel) total u data =
  read_payload fuel total (UART.read (total - len data) u).2
    (data ++ (UART.read (total - len data) u).1).
Proof.
  intros H. simpl. destruct (Z.ltb_spec (len data) total); [|lia].
  unfold UART.read. simpl.
  destruct (take _ (UART.rx (UART.arrive u))); by rewrite ?app_nil_r.
Qed.

Lemma wire_frame_cons nrows ncols grid rest :
  wire_frame nrows ncols grid ++ rest
  = 2 :: 83 :: nrows :: ncols :: (concat grid ++ 3 :: rest).
Proof. unfold wire_frame, frame_header. by rewrite <- !app_assoc. Qed.

(** ** Decoding a frame that has arrived in full *)

Lemma read_frame_buffered fuel k nrows ncols grid rest sched term :
  grid_shape nrows ncols grid ->
  buffer_shape term ->
  (1 <= fuel)%nat ->
  exists k',
    read_frame fuel (settled k (wire_frame nrows ncols grid ++ rest) sched) term
    = Some (Ret true, settled k' rest sched,
            snd (apply_snapshot term nrows ncols (concat grid))).
Proof.
  intros Hgrid Hterm Hfuel.
  pose proof (grid_shape_concat _ _ _ Hgrid) as Htotal.
  pose proof (apply_snapshot_ok _ _ _ _ Hterm Hgrid) as Hok.
  rewrite wire_frame_cons. unfold read_frame.
  rewrite any_settled.
  replace (len (_ ++ concat (take (S k) sched)) =? 0) with false
    by (symmetry; apply Z.eqb_neq; unfold len; simpl; lia).
  rewrite read_settled_1. simpl negb. cbv iota.
  rewrite read_settled_1.
  rewrite bool_decide_eq_false_2 by done.
  rewrite bool_decide_eq_true_2 by done. simpl orb. cbv iota.
  rewrite read_settled_2.
  destruct (decide (nrows * ncols = 0)) as [H0|H0].
  - rewrite read_payload_done by (unfold len; simpl; lia).
    assert (Hnil : concat grid = [])
      by (apply length_zero_iff_nil; unfold len in Htotal; lia).
    rewrite Hnil in Hok |- *. rewrite app_nil_l.
    rewrite read_settled_1. simpl negb. cbv iota.
    rewrite Hok. by eexists.
  - destruct fuel as [|fuel]; [lia|].
    assert (Hpos : 0 < len (concat grid)) by (unfold len in *; lia).
    rewrite read_payload_step by (unfold len in *; simpl; lia).
    rewrite (read_settled _ (concat grid))
      by (unfold len in *; simpl; lia).
    simpl fst; simpl snd. rewrite app_nil_l.
    rewrite read_payload_done by lia.
    rewrite read_settled_1. simpl negb. cbv iota.
    rewrite Hok. by eexists.
Qed.

(** ** What [frame_bytes] emits for a full grid *)

Lemma slice_all (l : list Z) n : len l = n -> slice l 0 n = l.
Proof.
  intros Hn. unfold slice, clip.
  assert (0 <= n) by (unfold len in Hn; lia).
  destruct (Z.ltb_spec 0 0); [lia|]. destruct (Z.ltb_spec n 0); [lia|].
  rewrite Z.min_l, Z.min_l by lia. simpl. rewrite drop_0.
  apply take_ge. unfold len in Hn. lia.
Qed.

Lemma land_255 n : 0 <= n <= 255 -> Z.land n 255 = n.
Proof.
  intros H. change 255 with (Z.ones 8).
  rewrite Z.land_ones by lia. apply Z.mod_small. simpl. lia.
Qed.

Lemma encode_sanitized line :
  PiBridge.encode_ascii_replace (PiBridge.printable_or_space <$> line)
  = sanitize_byte <$> line.
Proof.
  unfold PiBridge.encode_ascii_replace.
  induction line as [|ch line IH]; [done|].
  rewrite !fmap_cons, IH. f_equal.
  unfold PiBridge.printable_or_space, sanitize_byte.
  destruct (Z.leb_spec 32 ch), (Z.leb_spec ch 126); simpl;
    destruct (decide (32 <= ch <= 126)); try lia;
    match goal with |- context [?x <? 128] =>
      destruct (Z.ltb_spec x 128) end; lia.
Qed.

Lemma row_bytes_grid nrows ncols grid r line :
  len line = ncols ->
  grid !! r = Some line ->
  PiBridge.row_bytes
    {| PiBridge.lines := nrows; PiBridge.columns := ncols;
       PiBridge.display := grid |} r
  = sanitize_byte <$> line.
Proof.
  intros Hlen Hr. unfold PiBridge.row_bytes. simpl. rewrite Hr. simpl.
  assert (Hl : len (PiBridge.printable_or_space <$> line) = ncols)
    by (unfold len in *; by rewrite length_fmap).
  rewrite Hl. destruct (Z.ltb_spec ncols ncols); [lia|].
  rewrite slice_all by done. apply encode_sanitized.
Qed.

Lemma frame_bytes_grid nrows ncols grid :
  0 <= nrows <= 255 -> 0 <= ncols <= 255 ->
  grid_shape nrows ncols grid ->
  PiBridge.frame_bytes
    {| PiBridge.lines := nrows; PiBridge.columns := ncols;
       PiBridge.display := grid |}
  = wire_frame nrows ncols (sanitize grid).
Proof.
  intros Hr Hc [Hlen Hall]. unfold PiBridge.frame_bytes, wire_frame, frame_header.
  simpl. rewrite !land_255 by done.
  enough (Hrows : PiBridge.row_bytes
            {| PiBridge.lines := nrows; PiBridge.columns := ncols;
               PiBridge.display := grid |} <$> seq 0 (Z.to_nat nrows)
          = sanitize grid) by (by rewrite Hrows).
  apply list_eq. intros i.
  rewrite list_lookup_fmap. unfold sanitize. rewrite list_lookup_fmap.
  destruct (grid !! i) as [line|] eqn:Hi.
  - pose proof (lookup_lt_Some _ _ _ Hi) as Hlt.
    rewrite lookup_seq_lt by (unfold len in Hlen; lia). simpl. f_equal.
    apply row_bytes_grid; [|done].
    by apply (proj1 (Forall_lookup _ _) Hall i).
  - apply lookup_ge_None in Hi.
    rewrite lookup_seq_ge by (unfold len in Hlen; lia). done.
Qed.

Lemma sanitize_idem grid : sanitize (sanitize grid) = sanitize grid.
Proof.
  unfold sanitize. induction grid as [|line grid IH]; [done|].
  rewrite !fmap_cons, IH. f_equal.
  induction line as [|b line IHl]; [done|].
  by rewrite !fmap_cons, IHl, sanitize_byte_idem.
Qed.

(** C1. Round trip.  For a grid of [nrows] by [ncols] cells, both in
    1..255, of arbitrary content, the frame [frame_bytes] emits, once it
    is in the receive buffer of a device in a well-formed state, makes
    [read_frame] return True (any fuel of at least one loop turn
    suffices) and leaves the device holding exactly the sanitised grid
    with these dimensions. *)
Theorem frame_roundtrip :
  forall nrows ncols grid term rest sched fuel,
    1 <= nrows <= 255 -> 1 <= ncols <= 255 ->
    grid_shape nrows ncols grid ->
    buffer_shape term ->
    (1 <= fuel)%nat ->
    exists u' term',
      read_frame fuel
        {| UART.rx :=
             PiBridge.frame_bytes
               {| PiBridge.lines := nrows; PiBridge.columns := ncols;
                  PiBridge.display := grid |} ++ rest;
           UART.incoming := sched |} term
      = Some (Ret true, u', term') /\
      rows term' = nrows /\ cols term' = ncols /\
      buffer term' = sanitize grid.
Proof.
  intros nrows ncols grid term rest sched fuel Hr Hc Hgrid Hterm Hfuel.
  rewrite frame_bytes_grid by (done || lia).
  rewrite settled_0.
  pose proof (grid_shape_sanitize _ _ _ Hgrid) as Hsan.
  destruct (read_frame_buffered fuel 0 nrows ncols (sanitize grid) rest sched
              term Hsan Hterm Hfuel) as [k' Hread].
  eexists _, _. split; [exact Hread|].
  rewrite apply_snapshot_ok by done. simpl.
  by rewrite sanitize_idem.
Qed.

Lemma frame_roundtrip_witness :
  exists u' term',
    read_frame 1
      {| UART.rx :=
           PiBridge.frame_bytes
             {| PiBridge.lines := 2; PiBridge.columns := 3;
                PiBridge.display := [[72; 7; 200]; [126; 127; 31]] |} ++ [];
         UART.incoming := [] |} (init 24 80)
    = Some (Ret true, u', term') /\
    rows term' = 2 /\ cols term' = 3 /\
    buffer term' = [[72; 32; 32]; [126; 32; 32]].
Proof.
  apply (frame_roundtrip 2 3 [[72; 7; 200]; [126; 127; 31]] (init 24 80) [] [] 1).
  - lia.
  - lia.
  - split; [reflexivity|]. repeat constructor.
  - split; [reflexivity|]. repeat constructor.
  - lia.
Defined.

(** ** Resynchronisation *)

(** A poll that finds a byte other than the start marker drops that one
    byte and reports no frame. *)
Lemma read_frame_garbage fuel k g X sched term :
  g <> 2 ->
  read_frame fuel (settled k (g :: X) sched) term
  = Some (Ret false, settled (S (S k)) X sched, term).
Proof.
  intros Hg. unfold read_frame. rewrite any_settled.
  replace (len (_ ++ concat (take (S k) sched)) =? 0) with false
    by (symmetry; apply Z.eqb_neq; unfold len; simpl; lia).
  rewrite read_settled_1.
  by destruct (Z.eqb_spec g 2).
Qed.

Lemma main_loop_garbage fuel garbage :
  forall k X sched d,
    Forall (fun b => b <> 2) garbage ->
    main_loop fuel (length garbage) (settled k (garbage ++ X) sched) d
    = Some (Ret (), settled (k + 2 * length garbage) X sched, d).
Proof.
  induction garbage as [|g garbage IH]; intros k X sched [term lcd] Hg.
  - simpl. by rewrite Nat.add_0_r.
  - inversion Hg as [|? ? Hg1 Hg2]; subst.
    simpl main_loop. unfold main_step. simpl fst.
    rewrite read_frame_garbage by done. simpl snd.
    rewrite IH by done.
    replace (k + 2 * length (g :: garbage))%nat
      with (S (S k) + 2 * length garbage)%nat by (simpl; lia).
    done.
Qed.

(** C4. With garbage free of start markers followed by a well-formed
    frame in the receive buffer, as many turns of the polling loop as
    there are garbage bytes go by without touching the terminal view or
    the display, after which the buffer starts at the frame's start
    marker and the next [read_frame] returns True, having applied the
    frame's grid. *)
Theorem resynchronise_after_garbage :
  forall garbage nrows ncols grid rest sched term lcd fuel,
    Forall (fun b => b <> 2) garbage ->
    grid_shape nrows ncols grid ->
    buffer_shape term ->
    (1 <= fuel)%nat ->
    exists u1 u2 term' tail,
      main_loop fuel (length garbage)
        {| UART.rx := garbage ++ wire_frame nrows ncols grid ++ rest;
           UART.incoming := sched |} (term, lcd)
      = Some (Ret (), u1, (term, lcd)) /\
      UART.rx u1 = wire_frame nrows ncols grid ++ tail /\
      read_frame fuel u1 term = Some (Ret true, u2, term') /\
      rows term' = nrows /\ cols term' = ncols /\
      buffer term' = sanitize grid.
Proof.
  intros garbage nrows ncols grid rest sched term lcd fuel Hg Hgrid Hterm Hfuel.
  rewrite settled_0, main_loop_garbage by done.
  destruct (read_frame_buffered fuel (0 + 2 * length garbage) nrows ncols grid
              rest sched term Hgrid Hterm Hfuel) as [k' Hread].
  eexists _, _, _, _. split; [done|]. split.
  - unfold settled. simpl. by rewrite <- app_assoc.
  - split; [exact Hread|]. by rewrite apply_snapshot_ok.
Qed.

Lemma resynchronise_after_garbage_witness :
  exists u1 u2 term' tail,
    main_loop 1 (length [0; 83; 255; 3])
      {| UART.rx := [0; 83; 255; 3] ++ wire_frame 1 2 [[72; 7]] ++ [];
         UART.incoming := [] |} (init 24 80, [])
    = Some (Ret (), u1, (init 24 80, [])) /\
    UART.rx u1 = wire_frame 1 2 [[72; 7]] ++ tail /\
    read_frame 1 u1 (init 24 80) = Some (Ret true, u2, term') /\
    rows term' = 1 /\ cols term' = 2 /\
    buffer term' = sanitize [[72; 7]].
Proof.
  apply (resynchronise_after_garbage [0; 83; 255; 3] 1 2 [[72; 7]] [] []
           (init 24 80) [] 1).
  - repeat constructor; discriminate.
  - split; [reflexivity|]. repeat constructor.
  - split; [reflexivity|]. repeat constructor.
  - lia.
Defined.

(** ** Truncated payloads *)

Lemma arrive_pending u : pending (UART.arrive u) = pending u.
Proof.
  unfold pending, UART.arrive. destruct u as [rx [|chunk later]]; simpl; [done|].
  by rewrite <- app_assoc.
Qed.

Lemma any_pending u : pending (UART.any u).2 = pending u.
Proof. unfold UART.any. simpl. apply arrive_pending. Qed.

(** A read hands out a prefix of the pending bytes, no longer than
    asked for. *)
Lemma read_pending n u :
  pending u = (UART.read n u).1 ++ pending (UART.read n u).2 /\
  (length (UART.read n u).1 <= Z.to_nat n)%nat.
Proof.
  unfold UART.read. simpl. split.
  - rewrite <- (arrive_pending u). unfold pending. simpl.
    by rewrite app_assoc, take_drop.
  - rewrite length_take. lia.
Qed.

Lemma read_one_cases u x tl :
  pending u = x :: tl ->
  (UART.read 1 u).1 = [] \/
  ((UART.read 1 u).1 = [x] /\ pending (UART.read 1 u).2 = tl).
Proof.
  intros Hp. destruct (read_pending 1 u) as [Heq Hlen]. rewrite Hp in Heq.
  destruct (UART.read 1 u).1 as [|g [|g' got]]; simpl in *; [by left| |lia].
  right. by injection Heq as <- <-.
Qed.

Lemma read_two_cases u x y tl :
  pending u = x :: y :: tl ->
  (UART.read 2 u).1 = [] \/
  (exists g, (UART.read 2 u).1 = [g]) \/
  ((UART.read 2 u).1 = [x; y] /\ pending (UART.read 2 u).2 = tl).
Proof.
  intros Hp. destruct (read_pending 2 u) as [Heq Hlen]. rewrite Hp in Heq.
  destruct (UART.read 2 u).1 as [|g [|g' [|g'' got]]]; simpl in *;
    [by left|right; left; by eexists| |lia].
  right; right. by injection Heq as <- <- <-.
Qed.

(** While fewer bytes are pending than the payload still lacks, the loop
    cannot finish: it is still waiting whatever the fuel. *)
Lemma read_payload_starved fuel :
  forall total u data,
    len data + len (pending u) < total ->
    read_payload fuel total u data = None.
Proof.
  induction fuel as [|fuel IH]; intros total u data Hshort.
  - simpl. destruct (Z.ltb_spec (len data) total); [done|unfold len in *; lia].
  - rewrite read_payload_step by (unfold len in *; lia).
    apply IH. destruct (read_pending (total - len data) u) as [Heq _].
    rewrite Heq in Hshort. unfold len in *.
    rewrite !length_app in *. lia.
Qed.

(** C2. When all the link ever delivers is a correct header followed by
    fewer payload bytes than the header announces, [read_frame] never
    returns a grid: for every fuel it is either still waiting in the
    payload loop, or it has returned False with the terminal view
    untouched. *)
Theorem truncated_payload_never_decoded :
  forall nrows ncols payload u term fuel result,
    pending u = frame_header nrows ncols ++ payload ->
    len payload < nrows * ncols ->
    read_frame fuel u term = Some result ->
    result.1.1 = Ret false /\ result.2 = term.
Proof.
  intros nrows ncols payload u term fuel result Hp Hshort.
  unfold read_frame, frame_header in *. simpl in Hp.
  destruct (UART.any u) as [n u1] eqn:E1.
  assert (Hp1 : pending u1 = 2 :: 83 :: nrows :: ncols :: payload)
    by (rewrite <- Hp, <- (any_pending u); by rewrite E1).
  destruct (n =? 0); [by intros [= <-]|].
  destruct (read_one_cases u1 _ _ Hp1) as [Hb|[Hb Hp2]];
    destruct (UART.read 1 u1) as [b u2]; simpl in Hb; subst b;
    [by intros [= <-]|].
  simpl in Hp2. simpl negb. cbv iota.
  destruct (read_one_cases u2 _ _ Hp2) as [Hc|[Hc Hp3]];
    destruct (UART.read 1 u2) as [cmd u3]; simpl in Hc; subst cmd;
    [by intros [= <-]|].
  simpl in Hp3.
  rewrite bool_decide_eq_false_2 by done.
  rewrite bool_decide_eq_true_2 by done. simpl orb. cbv iota.
  destruct (read_two_cases u3 _ _ _ Hp3) as [Hh|[[g Hh]|[Hh Hp4]]];
    destruct (UART.read 2 u3) as [hdr u4]; simpl in Hh; subst hdr;
    [by intros [= <-]|by intros [= <-]|].
  simpl in Hp4.
  rewrite read_payload_starved; [done|].
  rewrite Hp4. unfold len in *. simpl. lia.
Qed.

Lemma truncated_payload_never_decoded_witness :
  (read_frame 5
     {| UART.rx := []; UART.incoming := [[2]; []; []; [83; 1; 3; 65; 66]] |}
     (init 24 80)
   = Some (Ret false,
           {| UART.rx := []; UART.incoming := [[83; 1; 3; 65; 66]] |},
           init 24 80)) /\
  (Ret false : outcome bool) = Ret false /\ init 24 80 = init 24 80.
Proof.
  assert (E : read_frame 5
                {| UART.rx := [];
                   UART.incoming := [[2]; []; []; [83; 1; 3; 65; 66]] |}
                (init 24 80)
              = Some (Ret false,
                      {| UART.rx := [];
                         UART.incoming := [[83; 1; 3; 65; 66]] |},
                      init 24 80)) by reflexivity.
  split; [exact E|].
  apply (truncated_payload_never_decoded 1 3 [65; 66]
           {| UART.rx := [];
              UART.incoming := [[2]; []; []; [83; 1; 3; 65; 66]] |}
           (init 24 80) 5 _ eq_refl eq_refl E).
Defined.

(** The stall behind C2: with the header already received, the payload
    loop of such a stream never ends. *)
Lemma truncated_payload_stalls nrows ncols payload sched term fuel :
  len (payload ++ concat sched) < nrows * ncols ->
  read_frame fuel
    {| UART.rx := frame_header nrows ncols ++ payload; UART.incoming := sched |}
    term = None.
Proof.
  intros Hshort. rewrite settled_0. unfold read_frame, frame_header. simpl app.
  rewrite any_settled.
  replace (len (_ ++ concat (take 1 sched)) =? 0) with false
    by (symmetry; apply Z.eqb_neq; unfold len; simpl; lia).
  rewrite read_settled_1. simpl negb. cbv iota.
  rewrite read_settled_1.
  rewrite bool_decide_eq_false_2 by done.
  rewrite bool_decide_eq_true_2 by done. simpl orb. cbv iota.
  rewrite read_settled_2.
  rewrite read_payload_starved; [done|].
  unfold pending, settled. simpl.
  rewrite <- app_assoc, <- concat_app, take_drop.
  unfold len in *. simpl. lia.
Qed.

(** ** Payload delivered in chunks *)

(** The header part of [read_frame]: with the four header bytes in the
    receive buffer the decoder reaches the payload loop. *)
Lemma read_frame_header fuel k nrows ncols X sched term :
  read_frame fuel (settled k (2 :: 83 :: nrows :: ncols :: X) sched) term =
  match read_payload fuel (nrows * ncols) (settled (S (S (S (S k)))) X sched) []
  with
  | None => None
  | Some (u, data) =>
      let '(etx, u) := UART.read 1 u in
      match etx with
      | [] => Some (Ret false, u, term)
      | e :: _ =>
          if negb (e =? 3) then Some (Ret false, u, term) else
          match apply_snapshot term nrows ncols data with
          | (Ret _, term') => Some (Ret true, u, term')
          | (Raise ex, term') => Some (Raise ex, u, term')
          end
      end
  end.
Proof.
  unfold read_frame. rewrite any_settled.
  replace (len (_ ++ concat (take (S k) sched)) =? 0) with false
    by (symmetry; apply Z.eqb_neq; unfold len; simpl; lia).
  rewrite read_settled_1. simpl negb. cbv iota.
  rewrite read_settled_1.
  rewrite bool_decide_eq_false_2 by done.
  rewrite bool_decide_eq_true_2 by done. simpl orb. cbv iota.
  by rewrite read_settled_2.
Qed.

(** The payload loop when the chunks [pre] leave the payload incomplete
    and the chunk [last] completes it: one turn per chunk, each partial
    read appended, until [total] bytes are there. *)
Lemma read_payload_chunks total last post pre :
  forall rx data fuel,
    len data + len rx + len (concat pre) < total ->
    total <= len data + len rx + len (concat pre) + len last ->
    (length pre + 1 <= fuel)%nat ->
    read_payload fuel total
      {| UART.rx := rx; UART.incoming := pre ++ last :: post |} data
    = Some ({| UART.rx := drop (Z.to_nat (total - len data))
                            (rx ++ concat pre ++ last);
               UART.incoming := post |},
            data ++ take (Z.to_nat (total - len data))
                      (rx ++ concat pre ++ last)).
Proof.
  induction pre as [|chunk pre IH]; intros rx data fuel Hshort Hfull Hfuel;
    (destruct fuel as [|fuel]; [simpl in Hfuel; lia|]);
    rewrite read_payload_step by (unfold len in *; lia);
    unfold UART.read, UART.arrive; simpl.
  - apply read_payload_done. unfold len in *. simpl in *.
    rewrite length_app, length_take, length_app. lia.
  - unfold len in *. simpl in *. rewrite !length_app in *.
    rewrite (take_ge (rx ++ chunk)), (drop_ge (rx ++ chunk))
      by (rewrite length_app; lia).
    rewrite IH; unfold len; rewrite ?length_app; simpl; try lia.
    rewrite (app_assoc rx (chunk ++ concat pre) last).
    rewrite (app_assoc rx chunk (concat pre)).
    rewrite <- (app_assoc (rx ++ chunk) (concat pre) last).
    rewrite (take_app_ge (rx ++ chunk)), (drop_app_ge (rx ++ chunk))
      by (rewrite length_app; lia).
    rewrite !length_app.
    replace (Z.to_nat (total - Z.of_nat (length data))
             - (length rx + length chunk))%nat
      with (Z.to_nat (total - Z.of_nat
                        (length data + (length rx + length chunk))%nat))
      by lia.
    by rewrite <- !app_assoc.
Qed.

Lemma concat_take_drop (k : nat) (l : list (list Z)) :
  concat (take k l) ++ concat (drop k l) = concat l.
Proof. by rewrite <- concat_app, take_drop. Qed.

(** C3, as the code has it.  When the four header bytes are in the
    receive buffer, the payload arrives split into arbitrary chunks
    (so that payload reads return fewer bytes than asked for, or none)
    and the end marker arrives in the same chunk as the last payload
    byte, [read_frame] keeps reading until the payload is complete and
    returns True with the frame's grid applied.  Only the payload read
    is retried. *)
Theorem read_frame_chunked_payload :
  forall nrows ncols grid b0 pre last post extra term fuel,
    grid_shape nrows ncols grid ->
    buffer_shape term ->
    b0 ++ concat pre ++ last = concat grid ++ 3 :: extra ->
    len (b0 ++ concat pre) < len (concat grid) ->
    (length pre + 1 <= fuel)%nat ->
    exists u' term',
      read_frame fuel
        {| UART.rx := frame_header nrows ncols ++ b0;
           UART.incoming := pre ++ last :: post |} term
      = Some (Ret true, u', term') /\
      rows term' = nrows /\ cols term' = ncols /\
      buffer term' = sanitize grid.
Proof.
  intros nrows ncols grid b0 pre last post extra term fuel
    Hgrid Hterm Hstream Hshort Hfuel.
  pose proof (grid_shape_concat _ _ _ Hgrid) as Htotal.
  pose proof (apply_snapshot_ok _ _ _ _ Hterm Hgrid) as Hok.
  rewrite settled_0. unfold frame_header. simpl app.
  rewrite read_frame_header. unfold settled.
  destruct (decide (4 <= length pre)%nat) as [Hlong|Hfew].
  - rewrite take_app_le, drop_app_le by done.
    rewrite read_payload_chunks.
    + rewrite app_nil_l, <- app_assoc, (app_assoc _ _ last).
      rewrite concat_take_drop, Hstream.
      replace (Z.to_nat (nrows * ncols - len [])) with (length (concat grid))
        by (unfold len in *; simpl; lia).
      rewrite take_app_length, drop_app_length.
      rewrite settled_0, read_settled_1. simpl negb. cbv iota.
      rewrite Hok. by eexists _, _.
    + rewrite <- Htotal. unfold len in *. simpl.
      rewrite <- (concat_take_drop 4 pre) in Hshort.
      rewrite !length_app in *. lia.
    + rewrite <- Htotal. unfold len in *. simpl.
      apply (f_equal length) in Hstream.
      rewrite <- (concat_take_drop 4 pre) in Hstream.
      rewrite !length_app in *. simpl in Hstream. lia.
    + rewrite length_drop. lia.
  - rewrite take_app_ge, drop_app_ge by lia.
    destruct (4 - length pre)%nat as [|m] eqn:Em; [lia|].
    simpl take. simpl drop. rewrite concat_app, concat_cons.
    rewrite !app_assoc, <- (app_assoc b0), Hstream, <- !app_assoc.
    simpl app.
    destruct fuel as [|fuel]; [lia|].
    rewrite settled_0.
    rewrite read_payload_step by (unfold len in *; simpl; lia).
    rewrite (read_settled _ (concat grid)) by (unfold len in *; simpl; lia).
    simpl fst; simpl snd. rewrite app_nil_l.
    rewrite read_payload_done by lia.
    rewrite read_settled_1. simpl negb. cbv iota.
    rewrite Hok. by eexists _, _.
Qed.

Lemma read_frame_chunked_payload_witness :
  exists u' term',
    read_frame 7
      {| UART.rx := frame_header 2 2 ++ [72];
         UART.incoming := [[]; [105]; []; []; []; [33]] ++ [63; 3; 2] :: [] |}
      (init 24 80)
    = Some (Ret true, u', term') /\
    rows term' = 2 /\ cols term' = 2 /\
    buffer term' = sanitize [[72; 105]; [33; 63]].
Proof.
  apply (read_frame_chunked_payload 2 2 [[72; 105]; [33; 63]] [72]
           [[]; [105]; []; []; []; [33]] [63; 3; 2] [] [2] (init 24 80) 7).
  - split; [reflexivity|]. repeat constructor.
  - split; [reflexivity|]. repeat constructor.
  - reflexivity.
  - reflexivity.
  - simpl. lia.
Defined.

(** C3 as stated fails: only the payload read is retried.  The frame
    [02 'S' 01 01 'A' 03] delivered as the start marker first and the
    rest a little later makes the read of the type byte come back empty,
    and [read_frame] returns False; so does a late second dimension
    byte, and so does a late end marker.  In each case the call leaves
    the terminal view as it was, whatever the fuel, and what is left of
    the frame no longer begins with a start marker. *)
Lemma read_frame_chunked_counterexample :
  let late_type := [[2]; []; []; [83; 1; 1; 65; 3]] in
  let late_dimension := [[2; 83; 1]; []; []; []; [1; 65; 3]] in
  let late_end := [[2; 83; 1; 1; 65]; []; []; []; []; []; [3]] in
  (concat late_type = wire_frame 1 1 [[65]] /\
   concat late_dimension = wire_frame 1 1 [[65]] /\
   concat late_end = wire_frame 1 1 [[65]]) /\
  (forall fuel,
     read_frame fuel {| UART.rx := []; UART.incoming := late_type |} (init 24 80)
     = Some (Ret false,
             {| UART.rx := []; UART.incoming := [[83; 1; 1; 65; 3]] |},
             init 24 80)) /\
  (forall fuel,
     read_frame fuel {| UART.rx := []; UART.incoming := late_dimension |}
       (init 24 80)
     = Some (Ret false,
             {| UART.rx := []; UART.incoming := [[1; 65; 3]] |},
             init 24 80)) /\
  (forall fuel,
     read_frame (S fuel) {| UART.rx := []; UART.incoming := late_end |}
       (init 24 80)
     = Some (Ret false,
             {| UART.rx := []; UART.incoming := [[3]] |},
             init 24 80)).
Proof.
  split; [by repeat split|].
  split; [by intros fuel|]. split; [by intros fuel|].
  intros fuel. unfold read_frame. simpl.
  by rewrite read_payload_done.
Qed.

(** ** The visible window *)

Lemma insert_cell_lengths (buf : list (list Z)) r c row x :
  buf !! r = Some row ->
  length <$> <[r := <[c := x]> row]> buf = length <$> buf.
Proof.
  intros Hr. rewrite list_fmap_insert, length_insert.
  apply list_insert_id. by rewrite list_lookup_fmap, Hr.
Qed.

Lemma fill_cols_lengths data r cs :
  forall buf idx,
    length <$> (fill_cols data r cs buf idx).1.2 = length <$> buf.
Proof.
  induction cs as [|c cs IH]; intros buf idx; simpl; [done|].
  destruct (data !! idx) as [b|]; [|done].
  destruct (buf !! r) as [row|] eqn:Hr; [|done].
  destruct (decide (c < length row)%nat); [|done].
  rewrite IH. by apply insert_cell_lengths.
Qed.

Lemma fill_rows_lengths data ncols rs :
  forall buf idx,
    length <$> (fill_rows data rs ncols buf idx).1.2 = length <$> buf.
Proof.
  induction rs as [|r rs IH]; intros buf idx; simpl; [done|].
  pose proof (fill_cols_lengths data r (seq 0 ncols) buf idx) as Hc.
  destruct (fill_cols data r (seq 0 ncols) buf idx) as [[[[]|e] buf'] idx'];
    simpl in Hc; [|done].
  by rewrite IH.
Qed.

Lemma grid_shape_lengths_eq nrows ncols (buf buf' : list (list Z)) :
  length <$> buf' = length <$> buf ->
  grid_shape nrows ncols buf -> grid_shape nrows ncols buf'.
Proof.
  intros Heq [Hlen Hall]. unfold grid_shape, len in *. split.
  - rewrite <- Hlen, <- (length_fmap length buf'), Heq. by rewrite length_fmap.
  - change (Forall ((fun k => Z.of_nat k = ncols) ∘ length) buf').
    apply Forall_fmap. rewrite Heq. by apply Forall_fmap.
Qed.

Lemma apply_snapshot_keeps_shape term nrows ncols data :
  buffer_shape term ->
  buffer_shape (snd (apply_snapshot term nrows ncols data)).
Proof.
  intros Hterm. unfold apply_snapshot.
  destruct (negb (nrows =? rows term) || negb (ncols =? cols term)) eqn:E.
  - pose proof (fill_rows_lengths data (Z.to_nat ncols) (seq 0 (Z.to_nat nrows))
                  (blank nrows ncols) 0%nat) as Hl.
    simpl buffer.
    destruct (fill_rows _ _ _ _ _) as [[o buf] idx]. simpl in *.
    unfold buffer_shape. simpl.
    apply (grid_shape_lengths_eq _ _ _ _ Hl), init_shape.
  - pose proof (fill_rows_lengths data (Z.to_nat ncols) (seq 0 (Z.to_nat nrows))
                  (buffer term) 0%nat) as Hl.
    destruct (fill_rows _ _ _ _ _) as [[o buf] idx]. simpl in *.
    unfold buffer_shape. simpl. by apply (grid_shape_lengths_eq _ _ _ _ Hl).
Qed.

Lemma reachable_ok term : reachable term -> viewport_ok term.
Proof.
  induction 1 as [nrows ncols|term nrows ncols data term' _ IH Hsnap
                  |term delta _ IH|term delta _ IH].
  - split; [apply init_shape|]. simpl. lia.
  - destruct IH as (Hshape & Hv & Hh).
    pose proof (apply_snapshot_keeps_shape term nrows ncols data Hshape) as Hs.
    pose proof (apply_snapshot_dims term nrows ncols data) as [Hr Hc].
    pose proof (apply_snapshot_v_off term nrows ncols data) as Hv'.
    pose proof (apply_snapshot_h_off term nrows ncols data) as Hh'.
    rewrite Hsnap in Hs, Hr, Hc, Hv', Hh'. simpl in *.
    split; [done|]. rewrite Hr, Hc, Hv', Hh'.
    destruct (negb (nrows =? rows term) || negb (ncols =? cols term)) eqn:E;
      [lia|].
    apply orb_false_elim in E as [E1 E2].
    apply negb_false_iff in E1, E2. apply Z.eqb_eq in E1, E2. lia.
  - destruct IH as (Hshape & Hv & Hh). split; [done|]. simpl. lia.
  - destruct IH as (Hshape & Hv & Hh). split; [done|]. simpl. lia.
Qed.

Lemma slice_length (l : list Z) a b :
  0 <= a <= b -> b <= len l -> len (slice l a b) = b - a.
Proof.
  intros Hab Hb. unfold slice, clip.
  destruct (Z.ltb_spec a 0); [lia|]. destruct (Z.ltb_spec b 0); [lia|].
  rewrite !Z.min_l by lia. unfold len in *.
  rewrite length_take, length_drop. lia.
Qed.

Section Window.
Variables (term : TerminalView.t) (width : Z).
Hypothesis Hok : viewport_ok term.
Hypothesis Hrows : 1 <= rows term.
Hypothesis Hcols : 0 <= cols term.
Hypothesis Hwidth : 0 <= width.

Lemma window_row_in_grid r : 0 <= r -> 0 <= window_row term r < rows term.
Proof. destruct Hok as (_ & Hv & _). unfold window_row. lia. Qed.

Lemma window_span_in_grid :
  0 <= (window_span term width).1 <= (window_span term width).2 /\
  (window_span term width).2 <= cols term.
Proof. destruct Hok as (_ & _ & Hh). unfold window_span. simpl. lia. Qed.

Lemma window_line_ok r :
  0 <= r -> exists s, window_line term width r = Ret s /\ len s = width.
Proof.
  intros Hr. pose proof (window_row_in_grid r Hr) as Hrow.
  pose proof window_span_in_grid as [Hspan Hstop].
  destruct Hok as ([Hlen Hall] & _ & _).
  unfold window_line, window_span in *. simpl in Hspan, Hstop.
  set (start := h_off term) in *.
  set (stop := Z.min (cols term) (start + width)) in *.
  unfold index. destruct (Z.leb_spec 0 (window_row term r)); [|lia].
  destruct (buffer term !! Z.to_nat (window_row term r)) as [line|] eqn:Hline.
  - assert (Hl : len line = cols term).
    { pose proof (proj1 (Forall_lookup _ _) Hall _ _ Hline) as Hl.
      simpl in Hl. lia. }
    pose proof (slice_length line start stop Hspan ltac:(lia)) as Hs.
    eexists. split; [done|].
    destruct (Z.ltb_spec (len (slice line start stop)) width) as [Hlt|Hge].
    + unfold len, spaces in *. rewrite length_app, length_replicate. lia.
    + lia.
  - apply lookup_ge_None in Hline. unfold len in Hlen. lia.
Qed.

Lemma window_loop_ok rs :
  forall acc,
    Forall (fun r => 0 <= r) rs ->
    exists out,
      window_loop term width rs acc = Ret (acc ++ out) /\
      length out = length rs /\
      Forall (fun s => len s = width) out.
Proof.
  induction rs as [|r rs IH]; intros acc Hrs; simpl.
  - exists []. by rewrite app_nil_r.
  - inversion Hrs as [|? ? Hr Hrs']; subst.
    destruct (window_line_ok r Hr) as (s & -> & Hs).
    destruct (IH (acc ++ [s]) Hrs') as (out & -> & Hlen & Hall).
    exists (s :: out). rewrite <- app_assoc. simpl.
    split; [done|]. split; [by rewrite Hlen|by constructor].
Qed.
End Window.

Lemma range_nonneg n : Forall (fun r => 0 <= r) (range n).
Proof. unfold range. apply Forall_fmap, Forall_forall. simpl. lia. Qed.

Lemma range_length n : length (range n) = Z.to_nat n.
Proof. unfold range. by rewrite length_fmap, length_seq. Qed.

(** The part of C5 that holds: in every reachable state with at least
    one row, [window_lines] returns [height] strings of [width]
    characters and only touches rows in [0, rows) and columns in
    [0, cols). *)
Lemma window_lines_in_bounds term width height :
  reachable term -> 1 <= rows term -> 0 <= cols term ->
  0 <= width -> 0 <= height ->
  (exists lines,
     window_lines term width height = Ret lines /\
     len lines = height /\ Forall (fun s => len s = width) lines) /\
  (forall r, 0 <= r < height -> 0 <= window_row term r < rows term) /\
  0 <= (window_span term width).1 <= (window_span term width).2 /\
  (window_span term width).2 <= cols term.
Proof.
  intros Hreach Hrows Hcols Hwidth Hheight.
  pose proof (reachable_ok term Hreach) as Hok.
  split; [|split].
  - destruct (window_loop_ok term width Hok Hrows Hcols Hwidth (range height) []
                (range_nonneg height)) as (out & Hrun & Hlen & Hall).
    exists out. split; [exact Hrun|]. split; [|done].
    unfold len. rewrite Hlen, range_length. lia.
  - intros r Hr. apply window_row_in_grid; [done|done|lia].
  - by apply window_span_in_grid.
Qed.

(** C5 at the input where the code breaks it.  The frame
    [02 'S' 00 01 03] announces a grid without rows; [read_frame]
    applies it, leaving an empty buffer, and [window_lines] then
    computes the row index [min(rows - 1, v_off + r) = -1] and raises
    IndexError on [self.buffer[-1]].  The exception ends the polling
    loop, since nothing catches it. *)
Theorem window_lines_zero_rows :
  let term := (apply_snapshot (init TERM_ROWS TERM_COLS) 0 1 []).2 in
  reachable term /\
  rows term = 0 /\
  window_row term 0 = -1 /\
  window_lines term LCD_COLS LCD_ROWS = Raise IndexError /\
  main_step 1 {| UART.rx := [2; 83; 0; 1; 3]; UART.incoming := [] |}
    (init TERM_ROWS TERM_COLS, [])
  = Some (Raise IndexError, {| UART.rx := []; UART.incoming := [] |}, (term, [])).
Proof.
  intros term. split; [|by vm_compute].
  apply (reach_snapshot (init TERM_ROWS TERM_COLS) 0 1 []);
    [apply reach_init|reflexivity].
Qed.

(** * Further properties *)

(** ** [frame_bytes] on any display *)

Lemma sanitize_byte_printable b : printable (sanitize_byte b).
Proof.
  unfold printable, sanitize_byte. destruct (decide (32 <= b <= 126)); lia.
Qed.

Lemma sanitize_byte_id b : printable b -> sanitize_byte b = b.
Proof. intros H. unfold sanitize_byte. by rewrite decide_True. Qed.

Lemma encode_printable line :
  Forall printable line -> PiBridge.encode_ascii_replace line = line.
Proof.
  unfold PiBridge.encode_ascii_replace.
  induction 1 as [|ch line Hch _ IH]; [done|].
  rewrite fmap_cons, IH. unfold printable in Hch.
  destruct (Z.ltb_spec ch 128); [done|lia].
Qed.

Lemma printable_or_space_sanitize (line : list Z) :
  PiBridge.printable_or_space <$> line = sanitize_byte <$> line.
Proof.
  induction line as [|ch line IH]; [done|].
  rewrite !fmap_cons, IH. f_equal.
  unfold PiBridge.printable_or_space, sanitize_byte.
  destruct (Z.leb_spec 32 ch), (Z.leb_spec ch 126); simpl;
    destruct (decide (32 <= ch <= 126)); lia.
Qed.

Lemma normal_row_printable screen r : Forall printable (normal_row screen r).
Proof.
  unfold normal_row. apply Forall_take, Forall_app. split.
  - apply Forall_fmap, Forall_forall. intros b _. apply sanitize_byte_printable.
  - apply Forall_replicate. unfold printable. lia.
Qed.

Lemma normal_row_length screen r :
  0 <= PiBridge.columns screen ->
  len (normal_row screen r) = PiBridge.columns screen.
Proof.
  intros Hc. unfold normal_row, len.
  rewrite length_take, length_app, length_replicate. lia.
Qed.

(** What the loop body of [frame_bytes] produces for row [r]. *)
Lemma row_bytes_normal screen r :
  0 <= PiBridge.columns screen ->
  PiBridge.row_bytes screen r = normal_row screen r.
Proof.
  intros Hc. unfold PiBridge.row_bytes, normal_row.
  rewrite printable_or_space_sanitize.
  set (line := sanitize_byte <$> default [] (PiBridge.display screen !! r)).
  assert (Hline : Forall printable line).
  { apply Forall_fmap, Forall_forall. intros b _. apply sanitize_byte_printable. }
  destruct (Z.ltb_spec (len line) (PiBridge.columns screen)) as [Hlt|Hge];
    unfold len in *.
  - rewrite encode_printable.
    + rewrite take_app_ge by lia. f_equal.
      rewrite take_replicate. unfold spaces. f_equal. lia.
    + apply Forall_app. split; [done|].
      apply Forall_replicate. unfold printable. lia.
  - rewrite take_app_le by lia.
    unfold slice, clip. destruct (Z.ltb_spec 0 0); [lia|].
    destruct (Z.ltb_spec (PiBridge.columns screen) 0); [lia|].
    unfold len. rewrite Z.min_l, Z.min_l by lia. simpl. rewrite drop_0.
    rewrite Z.sub_0_r. by apply encode_printable, Forall_take.
Qed.

Lemma normal_grid_shape screen :
  0 <= PiBridge.lines screen -> 0 <= PiBridge.columns screen ->
  grid_shape (PiBridge.lines screen) (PiBridge.columns screen)
    (normal_grid screen).
Proof.
  intros Hr Hc. unfold grid_shape, normal_grid, len.
  rewrite length_fmap, length_seq. split; [lia|].
  apply Forall_fmap, Forall_forall. intros r _. by apply normal_row_length.
Qed.

Lemma sanitize_printable grid :
  Forall (Forall printable) grid -> sanitize grid = grid.
Proof.
  unfold sanitize. induction 1 as [|line grid Hline _ IH]; [done|].
  rewrite fmap_cons, IH. f_equal.
  induction Hline as [|b line Hb _ IHl]; [done|].
  by rewrite fmap_cons, IHl, sanitize_byte_id.
Qed.

Lemma frame_bytes_normal screen :
  0 <= PiBridge.lines screen <= 255 ->
  0 <= PiBridge.columns screen <= 255 ->
  PiBridge.frame_bytes screen
  = wire_frame (PiBridge.lines screen) (PiBridge.columns screen)
      (normal_grid screen).
Proof.
  intros Hr Hc.
  unfold PiBridge.frame_bytes, wire_frame, frame_header, normal_grid.
  rewrite !land_255 by done.
  enough (Hrows : PiBridge.row_bytes screen
                    <$> seq 0 (Z.to_nat (PiBridge.lines screen))
                  = normal_row screen
                    <$> seq 0 (Z.to_nat (PiBridge.lines screen)))
    by (by rewrite Hrows).
  apply list_fmap_ext. intros i r _. apply row_bytes_normal. lia.
Qed.

Lemma normal_grid_printable screen : Forall (Forall printable) (normal_grid screen).
Proof.
  apply Forall_fmap, Forall_forall. intros r _. apply normal_row_printable.
Qed.

(** X1. Whatever the display holds (lines too short, too long or
    missing, any code points), for dimensions in 0..255 [frame_bytes]
    emits a well-formed frame: the header, then exactly
    [lines * columns] printable bytes, row by row, each row the
    sanitised line padded with spaces and cut to [columns], then the end
    marker. *)
Theorem frame_bytes_any_display :
  forall screen,
    0 <= PiBridge.lines screen <= 255 ->
    0 <= PiBridge.columns screen <= 255 ->
    PiBridge.frame_bytes screen
    = wire_frame (PiBridge.lines screen) (PiBridge.columns screen)
        (normal_grid screen) /\
    grid_shape (PiBridge.lines screen) (PiBridge.columns screen)
      (normal_grid screen) /\
    Forall (Forall printable) (normal_grid screen) /\
    len (PiBridge.frame_bytes screen)
    = PiBridge.lines screen * PiBridge.columns screen + 5.
Proof.
  intros screen Hr Hc.
  pose proof (frame_bytes_normal screen Hr Hc) as Hframe.
  pose proof (normal_grid_shape screen ltac:(lia) ltac:(lia)) as Hshape.
  split; [done|]. split; [done|]. split; [apply normal_grid_printable|].
  rewrite Hframe. unfold wire_frame, frame_header, len.
  rewrite !length_app. simpl.
  pose proof (grid_shape_concat _ _ _ Hshape) as Hlen. unfold len in Hlen.
  lia.
Qed.

Lemma frame_bytes_any_display_witness :
  let screen :=
    {| PiBridge.lines := 3; PiBridge.columns := 2;
       PiBridge.display := [[72]; [104; 7; 105]] |} in
  PiBridge.frame_bytes screen
  = wire_frame 3 2 [[72; 32]; [104; 32]; [32; 32]] /\
  grid_shape 3 2 (normal_grid screen) /\
  Forall (Forall printable) (normal_grid screen) /\
  len (PiBridge.frame_bytes screen) = 3 * 2 + 5.
Proof.
  intros screen. apply (frame_bytes_any_display screen); simpl; lia.
Defined.

(** X2. Round trip for any display: with dimensions in 0..255, the
    frame [frame_bytes] emits makes [read_frame] return True and leaves
    the device with the screen's dimensions and its normalised rows. *)
Theorem any_display_roundtrip :
  forall screen term rest sched fuel,
    0 <= PiBridge.lines screen <= 255 ->
    0 <= PiBridge.columns screen <= 255 ->
    buffer_shape term ->
    (1 <= fuel)%nat ->
    exists u' term',
      read_frame fuel
        {| UART.rx := PiBridge.frame_bytes screen ++ rest;
           UART.incoming := sched |} term
      = Some (Ret true, u', term') /\
      rows term' = PiBridge.lines screen /\
      cols term' = PiBridge.columns screen /\
      buffer term' = normal_grid screen.
Proof.
  intros screen term rest sched fuel Hr Hc Hterm Hfuel.
  rewrite (frame_bytes_normal screen Hr Hc).
  pose proof (normal_grid_shape screen ltac:(lia) ltac:(lia)) as Hshape.
  pose proof (normal_grid_printable screen) as Hpr.
  rewrite settled_0.
  destruct (read_frame_buffered fuel 0 _ _ _ rest sched term Hshape Hterm Hfuel)
    as [k' Hread].
  eexists _, _. split; [exact Hread|].
  rewrite apply_snapshot_ok by done. simpl.
  by rewrite sanitize_printable.
Qed.

Lemma any_display_roundtrip_witness :
  exists u' term',
    read_frame 1
      {| UART.rx :=
           PiBridge.frame_bytes
             {| PiBridge.lines := 3; PiBridge.columns := 2;
                PiBridge.display := [[72]; [104; 7; 105]] |} ++ [];
         UART.incoming := [] |} (init 2 2)
    = Some (Ret true, u', term') /\
    rows term' = 3 /\ cols term' = 2 /\
    buffer term' = [[72; 32]; [104; 32]; [32; 32]].
Proof.
  apply (any_display_roundtrip
           {| PiBridge.lines := 3; PiBridge.columns := 2;
              PiBridge.display := [[72]; [104; 7; 105]] |} (init 2 2) [] [] 1).
  - simpl; lia.
  - simpl; lia.
  - split; [reflexivity|]. repeat constructor.
  - lia.
Defined.

(** ** Screens wider or taller than a byte *)

Lemma frame_bytes_layout screen :
  0 <= PiBridge.columns screen ->
  PiBridge.frame_bytes screen
  = 2 :: 83 :: Z.land (PiBridge.lines screen) 255
      :: Z.land (PiBridge.columns screen) 255
      :: (concat (normal_grid screen) ++ [3]).
Proof.
  intros Hc. unfold PiBridge.frame_bytes, normal_grid. simpl.
  enough (Hrows : PiBridge.row_bytes screen
                    <$> seq 0 (Z.to_nat (PiBridge.lines screen))
                  = normal_row screen
                    <$> seq 0 (Z.to_nat (PiBridge.lines screen)))
    by (by rewrite Hrows).
  apply list_fmap_ext. intros i r _. by apply row_bytes_normal.
Qed.

Lemma land_255_bounds n :
  0 <= n -> 0 <= Z.land n 255 <= n /\ (255 < n -> Z.land n 255 < n).
Proof.
  intros Hn. change 255 with (Z.ones 8) at 1 2 4.
  rewrite Z.land_ones by lia. change (2 ^ 8) with 256.
  pose proof (Z.mod_pos_bound n 256 ltac:(lia)).
  pose proof (Z.mod_le n 256 Hn ltac:(lia)). lia.
Qed.

Lemma Forall_concat_printable grid :
  Forall (Forall printable) grid -> Forall printable (concat grid).
Proof.
  induction 1 as [|line grid Hline _ IH]; simpl; [constructor|].
  apply Forall_app. by split.
Qed.

(** X3. The header has one byte per dimension.  A screen with more than
    255 lines or columns gets a header that announces fewer bytes than
    the payload has, so the device reads a payload byte where the end
    marker should be and rejects the frame: [read_frame] returns False
    and leaves the terminal view as it was. *)
Theorem oversize_frame_rejected :
  forall screen term rest sched fuel,
    1 <= PiBridge.lines screen -> 1 <= PiBridge.columns screen ->
    255 < PiBridge.lines screen \/ 255 < PiBridge.columns screen ->
    (1 <= fuel)%nat ->
    exists u',
      read_frame fuel
        {| UART.rx := PiBridge.frame_bytes screen ++ rest;
           UART.incoming := sched |} term
      = Some (Ret false, u', term).
Proof.
  intros screen term rest sched fuel Hr Hc Hbig Hfuel.
  rewrite frame_bytes_layout by lia.
  pose proof (normal_grid_shape screen ltac:(lia) ltac:(lia)) as Hshape.
  pose proof (grid_shape_concat _ _ _ Hshape) as Hlen.
  assert (Hpr : Forall printable (concat (normal_grid screen))).
  { apply Forall_concat_printable, Forall_fmap, Forall_forall.
    intros r _. apply normal_row_printable. }
  set (payload := concat (normal_grid screen)) in *.
  set (r' := Z.land (PiBridge.lines screen) 255).
  set (c' := Z.land (PiBridge.columns screen) 255).
  destruct (land_255_bounds (PiBridge.lines screen) ltac:(lia)) as [Hr1 Hr2].
  destruct (land_255_bounds (PiBridge.columns screen) ltac:(lia)) as [Hc1 Hc2].
  fold r' in Hr1, Hr2. fold c' in Hc1, Hc2.
  assert (Hshort : 0 <= r' * c' < len payload) by nia.
  destruct (payload !! Z.to_nat (r' * c')) as [x|] eqn:Hx;
    [|apply lookup_ge_None in Hx; unfold len in *; lia].
  assert (Hx3 : x <> 3).
  { pose proof (proj1 (Forall_lookup _ _) Hpr _ _ Hx) as H.
    unfold printable in H. lia. }
  rewrite <- (take_drop (Z.to_nat (r' * c')) payload).
  rewrite (drop_S _ _ _ Hx).
  set (head := take (Z.to_nat (r' * c')) payload).
  assert (Hhead : len head = r' * c').
  { unfold head, len in *. rewrite length_take. lia. }
  simpl. rewrite settled_0, read_frame_header.
  rewrite <- !app_assoc.
  rewrite <- (app_comm_cons (drop (S (Z.to_nat (r' * c'))) payload)).
  destruct (decide (r' * c' = 0)) as [H0|H0].
  - rewrite read_payload_done by (unfold len; simpl; lia).
    assert (head = []) as -> by (apply length_zero_iff_nil; unfold len in *; lia).
    rewrite app_nil_l, read_settled_1.
    destruct (Z.eqb_spec x 3); [done|]. by eexists.
  - destruct fuel as [|fuel]; [lia|].
    rewrite read_payload_step by (unfold len; simpl; lia).
    rewrite (read_settled _ head) by (unfold len in *; simpl; lia).
    simpl fst; simpl snd. rewrite app_nil_l.
    rewrite read_payload_done by lia.
    rewrite read_settled_1.
    destruct (Z.eqb_spec x 3); [done|]. by eexists.
Qed.

Lemma oversize_frame_rejected_witness :
  exists u',
    read_frame 1
      {| UART.rx :=
           PiBridge.frame_bytes
             {| PiBridge.lines := 1; PiBridge.columns := 256;
                PiBridge.display := [] |} ++ [];
         UART.incoming := [] |} (init 1 1)
    = Some (Ret false, u', init 1 1).
Proof.
  apply (oversize_frame_rejected
           {| PiBridge.lines := 1; PiBridge.columns := 256;
              PiBridge.display := [] |} (init 1 1) [] [] 1); simpl; lia.
Defined.

(** ** [apply_snapshot] on any payload *)

Lemma rows_of_length n c data : length (rows_of n c data) = n.
Proof. revert data. induction n as [|n IH]; intros data; simpl; by rewrite ?IH. Qed.

Lemma rows_of_widths n c data :
  (n * c <= length data)%nat ->
  Forall (fun row => length row = c) (rows_of n c data).
Proof.
  revert data. induction n as [|n IH]; intros data Hlen; simpl; constructor.
  - rewrite length_take. lia.
  - apply IH. rewrite length_drop. lia.
Qed.

Lemma concat_rows_of n c data :
  (n * c <= length data)%nat ->
  concat (rows_of n c data) = take (n * c) data.
Proof.
  revert data. induction n as [|n IH]; intros data Hlen; simpl; [done|].
  rewrite IH by (rewrite length_drop; lia).
  by rewrite take_take_drop.
Qed.

Lemma rows_of_lookup n c data r :
  (r < n)%nat -> rows_of n c data !! r = Some (take c (drop (r * c) data)).
Proof.
  revert data r. induction n as [|n IH]; intros data r Hr; [lia|].
  destruct r as [|r]; simpl; [done|].
  rewrite IH by lia. by rewrite drop_drop.
Qed.

Lemma fill_rows_grid buf (nr nc : nat) grid extra :
  length grid = nr -> Forall (fun line => length line = nc) grid ->
  length buf = nr -> Forall (fun line => length line = nc) buf ->
  fill_rows (concat grid ++ extra) (seq 0 nr) nc buf 0 =
  (Ret (), sanitize grid, length (concat grid)).
Proof.
  intros Hglen Hgall Hlen Hbuf.
  pose proof (fill_rows_ok (concat grid ++ extra) nc buf [] grid [] extra) as H.
  simpl in H. rewrite Hlen, sanitize_cells in H. apply H; [|done].
  apply Forall2_of_shapes; [lia|done|done].
Qed.

Lemma buffer_shape_lengths term :
  buffer_shape term ->
  length (buffer term) = Z.to_nat (rows term) /\
  Forall (fun line => length line = Z.to_nat (cols term)) (buffer term).
Proof.
  intros [Hlen Hall]. unfold len in *. split; [lia|].
  eapply Forall_impl; [|exact Hall]. simpl. intros line Hl. lia.
Qed.

(** What [apply_snapshot] does with any payload that is long enough:
    no exception, and the buffer is the sanitised payload cut into
    rows. *)
Lemma apply_snapshot_enough term nrows ncols data :
  buffer_shape term ->
  (Z.to_nat nrows * Z.to_nat ncols <= length data)%nat ->
  apply_snapshot term nrows ncols data =
  (Ret (),
   {| rows := nrows; cols := ncols;
      buffer := sanitize (rows_of (Z.to_nat nrows) (Z.to_nat ncols) data);
      v_off := (if negb (nrows =? rows term) || negb (ncols =? cols term)
                then 0 else v_off term);
      h_off := (if negb (nrows =? rows term) || negb (ncols =? cols term)
                then 0 else h_off term) |}).
Proof.
  intros Hterm Hlen.
  set (grid := rows_of (Z.to_nat nrows) (Z.to_nat ncols) data).
  assert (Hdata : data = concat grid
                         ++ drop (Z.to_nat nrows * Z.to_nat ncols) data).
  { unfold grid. by rewrite concat_rows_of, take_drop. }
  pose proof (rows_of_length (Z.to_nat nrows) (Z.to_nat ncols) data) as Hgl.
  pose proof (rows_of_widths (Z.to_nat nrows) (Z.to_nat ncols) data Hlen) as Hga.
  fold grid in Hgl, Hga.
  unfold apply_snapshot. rewrite Hdata at 1.
  destruct (negb (nrows =? rows term) || negb (ncols =? cols term)) eqn:E.
  - simpl. destruct (blank_shape nrows ncols) as [Hl Ha].
    by rewrite (fill_rows_grid _ _ _ _ _ Hgl Hga Hl Ha).
  - apply orb_false_elim in E as [E1 E2].
    apply negb_false_iff in E1, E2. apply Z.eqb_eq in E1, E2.
    destruct (buffer_shape_lengths term Hterm) as [Hl Ha].
    rewrite <- E1 in Hl. rewrite <- E2 in Ha.
    rewrite (fill_rows_grid _ _ _ _ _ Hgl Hga Hl Ha). by rewrite E1, E2.
Qed.

(** X4. Row-major fill.  When the payload has at least
    [rows * cols] bytes, [apply_snapshot] raises nothing, sets the
    dimensions, and cell [(r, c)] of the buffer is the sanitised byte
    [data_bytes[r * cols + c]]; bytes beyond [rows * cols] are
    ignored. *)
Theorem apply_snapshot_row_major :
  forall term nrows ncols data,
    buffer_shape term ->
    0 <= nrows -> 0 <= ncols ->
    nrows * ncols <= len data ->
    exists term',
      apply_snapshot term nrows ncols data = (Ret (), term') /\
      rows term' = nrows /\ cols term' = ncols /\
      buffer_shape term' /\
      forall r c : nat,
        Z.of_nat r < nrows -> Z.of_nat c < ncols ->
        buffer term' !! r ≫= (fun row => row !! c)
        = sanitize_byte <$> data !! (r * Z.to_nat ncols + c)%nat.
Proof.
  intros term nrows ncols data Hterm Hr Hc Hlen.
  assert (Hnat : (Z.to_nat nrows * Z.to_nat ncols <= length data)%nat)
    by (unfold len in Hlen; nia).
  eexists. split; [by apply apply_snapshot_enough|]. simpl.
  split; [done|]. split; [done|]. split.
  - unfold buffer_shape. simpl. apply grid_shape_sanitize. split.
    + unfold len. rewrite rows_of_length. lia.
    + eapply Forall_impl; [|by apply rows_of_widths]. simpl.
      unfold len. intros line Hl. lia.
  - intros r c Hrr Hcc. unfold sanitize.
    rewrite list_lookup_fmap, rows_of_lookup by lia. simpl.
    rewrite list_lookup_fmap, lookup_take_lt by lia.
    by rewrite lookup_drop.
Qed.

Lemma apply_snapshot_row_major_witness :
  exists term',
    apply_snapshot (init 1 1) 2 2 [65; 7; 66; 67; 68] = (Ret (), term') /\
    rows term' = 2 /\ cols term' = 2 /\
    buffer_shape term' /\
    forall r c : nat,
      Z.of_nat r < 2 -> Z.of_nat c < 2 ->
      buffer term' !! r ≫= (fun row => row !! c)
      = sanitize_byte <$> [65; 7; 66; 67; 68] !! (r * Z.to_nat 2 + c)%nat.
Proof.
  apply (apply_snapshot_row_major (init 1 1) 2 2 [65; 7; 66; 67; 68]).
  - split; [reflexivity|]. repeat constructor.
  - lia.
  - lia.
  - vm_compute. discriminate.
Defined.

Lemma fill_cols_ret data r cs :
  forall buf idx buf' idx',
    fill_cols data r cs buf idx = (Ret (), buf', idx') ->
    idx' = (idx + length cs)%nat /\ (cs <> [] -> (idx' <= length data)%nat).
Proof.
  induction cs as [|c cs IH]; intros buf idx buf' idx'; simpl.
  - intros [= <- <-]. split; [lia|done].
  - destruct (data !! idx) as [b|] eqn:Hb; [|done].
    destruct (buf !! r) as [row|]; [|done].
    destruct (decide (c < length row)%nat); [|done].
    intros Hfill. apply IH in Hfill as [-> Hle]. split; [lia|]. intros _.
    apply lookup_lt_Some in Hb. destruct cs; [simpl; lia|].
    apply Hle. done.
Qed.

Lemma fill_rows_ret data ncols rs :
  forall buf idx buf' idx',
    fill_rows data rs ncols buf idx = (Ret (), buf', idx') ->
    idx' = (idx + length rs * ncols)%nat /\
    ((length rs * ncols)%nat <> O -> (idx' <= length data)%nat).
Proof.
  induction rs as [|r rs IH]; intros buf idx buf' idx'; simpl.
  - intros [= <- <-]. split; [lia|done].
  - destruct (fill_cols data r (seq 0 ncols) buf idx) as [[[[]|ex] buf1] idx1]
      eqn:Hcols; [|done].
    apply fill_cols_ret in Hcols as [-> Hle1]. rewrite length_seq in *.
    intros Hrows. apply IH in Hrows as [-> Hle2]. split; [lia|]. intros Hpos.
    destruct (decide (length rs * ncols = 0)%nat) as [H0|H0].
    + rewrite H0, Nat.add_0_r. apply Hle1. destruct ncols; [lia|done].
    + by apply Hle2.
Qed.

(** X5. A payload shorter than [rows * cols] makes [apply_snapshot]
    raise IndexError, and by then the view has already taken the new
    dimensions (and, on a resize, lost its old content and offsets): the
    snapshot is applied in part. *)
Theorem apply_snapshot_short_payload :
  forall term nrows ncols data,
    0 <= nrows ->
    len data < nrows * ncols ->
    (apply_snapshot term nrows ncols data).1 = Raise IndexError /\
    rows (apply_snapshot term nrows ncols data).2 = nrows /\
    cols (apply_snapshot term nrows ncols data).2 = ncols.
Proof.
  intros term nrows ncols data Hr Hshort.
  split; [|apply apply_snapshot_dims].
  unfold apply_snapshot.
  destruct (fill_rows data (seq 0 (Z.to_nat nrows)) (Z.to_nat ncols) _ 0%nat)
    as [[[[]|[]] buf] idx] eqn:Hfill; [|done].
  apply fill_rows_ret in Hfill as [-> Hle]. rewrite length_seq in *.
  unfold len in *. simpl in Hle.
  assert (Z.to_nat nrows * Z.to_nat ncols <> 0)%nat by nia.
  specialize (Hle ltac:(done)). nia.
Qed.

Lemma apply_snapshot_short_payload_witness :
  (apply_snapshot (init 1 1) 2 2 [65; 66; 67]).1 = Raise IndexError /\
  rows (apply_snapshot (init 1 1) 2 2 [65; 66; 67]).2 = 2 /\
  cols (apply_snapshot (init 1 1) 2 2 [65; 66; 67]).2 = 2.
Proof.
  apply (apply_snapshot_short_payload (init 1 1) 2 2 [65; 66; 67]).
  - lia.
  - vm_compute. reflexivity.
Defined.

(** ** [read_frame] on any stream *)

Lemma read_payload_bounds fuel :
  forall total u data u' data',
    len data <= Z.max 0 total ->
    read_payload fuel total u data = Some (u', data') ->
    total <= len data' <= Z.max 0 total.
Proof.
  induction fuel as [|fuel IH]; intros total u data u' data' Hle.
  - simpl. destruct (Z.ltb_spec (len data) total); [done|].
    intros [= <- <-]. lia.
  - destruct (Z.lt_ge_cases (len data) total) as [Hlt|Hge].
    + rewrite read_payload_step by done. apply IH.
      destruct (read_pending (total - len data) u) as [_ Hn].
      unfold len in *. rewrite length_app. lia.
    + rewrite read_payload_done by done. intros [= <- <-]. lia.
Qed.

(** X6. [read_frame] raises nothing, whatever the link delivers and in
    whatever chunks: on a well-formed view every call that returns
    returns True or False, leaves the view well-formed, and on False
    leaves it exactly as it was. *)
Theorem read_frame_never_raises :
  forall fuel u term o u' term',
    buffer_shape term ->
    read_frame fuel u term = Some (o, u', term') ->
    (o = Ret true \/ o = Ret false) /\
    buffer_shape term' /\
    (o = Ret false -> term' = term).
Proof.
  intros fuel u term o u' term' Hterm. unfold read_frame.
  destruct (UART.any u) as [n u1].
  destruct (n =? 0); [by intros [= <- <- <-]; auto|].
  destruct (UART.read 1 u1) as [[|b0 b] u2]; [by intros [= <- <- <-]; auto|].
  destruct (negb (b0 =? 2)); [by intros [= <- <- <-]; auto|].
  destruct (UART.read 1 u2) as [cmd u3].
  destruct (bool_decide (cmd = []) || negb (bool_decide (cmd = [83])));
    [by intros [= <- <- <-]; auto|].
  destruct (UART.read 2 u3) as [[|nrows [|ncols hdr]] u4];
    [by intros [= <- <- <-]; auto|by intros [= <- <- <-]; auto|].
  destruct (read_payload fuel (nrows * ncols) u4 []) as [[u5 data]|] eqn:Hpay;
    [|done].
  apply read_payload_bounds in Hpay; [|unfold len; simpl; lia].
  destruct (UART.read 1 u5) as [[|e etx] u6]; [by intros [= <- <- <-]; auto|].
  destruct (negb (e =? 3)); [by intros [= <- <- <-]; auto|].
  rewrite apply_snapshot_enough by (done || unfold len in Hpay; nia).
  intros [= <- <- <-]. split; [by left|]. split; [|done].
  pose proof (apply_snapshot_keeps_shape term nrows ncols data Hterm) as Hs.
  by rewrite apply_snapshot_enough in Hs by (done || unfold len in Hpay; nia).
Qed.

Lemma read_frame_never_raises_witness :
  (Ret true = Ret true \/ (Ret true : outcome bool) = Ret false) /\
  buffer_shape
    {| rows := 255; cols := 0; buffer := replicate 255 [];
       v_off := 0; h_off := 0 |} /\
  ((Ret true : outcome bool) = Ret false ->
   {| rows := 255; cols := 0; buffer := replicate 255 [];
      v_off := 0; h_off := 0 |} = init 1 1).
Proof.
  apply (read_frame_never_raises 0
           {| UART.rx := [2; 83; 255; 0; 3]; UART.incoming := [] |}
           (init 1 1) (Ret true) {| UART.rx := []; UART.incoming := [] |}).
  - split; [reflexivity|]. repeat constructor.
  - reflexivity.
Defined.

(** X7. A frame is applied only after its end marker has been seen.
    With a byte other than 0x03 where the end marker should be,
    [read_frame] returns False with the view untouched, having consumed
    the whole frame up to and including that byte.  With a byte other
    than 'S' after the start marker it returns False having consumed
    both bytes, also when the second is itself a start marker. *)
Theorem bad_frames_discarded :
  forall nrows ncols grid rest sched term fuel bad,
    grid_shape nrows ncols grid ->
    (1 <= fuel)%nat ->
    (bad <> 3 ->
     exists k,
       read_frame fuel
         {| UART.rx := frame_header nrows ncols ++ concat grid ++ bad :: rest;
            UART.incoming := sched |} term
       = Some (Ret false, settled k rest sched, term)) /\
    (bad <> 83 ->
     read_frame fuel
       {| UART.rx := 2 :: bad :: rest; UART.incoming := sched |} term
     = Some (Ret false, settled 3 rest sched, term)).
Proof.
  intros nrows ncols grid rest sched term fuel bad Hgrid Hfuel.
  pose proof (grid_shape_concat _ _ _ Hgrid) as Htotal.
  split; intros Hbad.
  - rewrite settled_0. unfold frame_header. simpl app.
    rewrite read_frame_header.
    destruct (decide (nrows * ncols = 0)) as [H0|H0].
    + rewrite read_payload_done by (unfold len; simpl; lia).
      assert (Hnil : concat grid = [])
        by (apply length_zero_iff_nil; unfold len in Htotal; lia).
      rewrite Hnil, app_nil_l, read_settled_1.
      destruct (Z.eqb_spec bad 3); [done|]. by eexists.
    + destruct fuel as [|fuel]; [lia|].
      rewrite read_payload_step by (unfold len in *; simpl; lia).
      rewrite (read_settled _ (concat grid)) by (unfold len in *; simpl; lia).
      simpl fst; simpl snd. rewrite app_nil_l.
      rewrite read_payload_done by lia.
      rewrite read_settled_1.
      destruct (Z.eqb_spec bad 3); [done|]. by eexists.
  - rewrite settled_0. unfold read_frame. rewrite any_settled.
    replace (len (_ ++ concat (take 1 sched)) =? 0) with false
      by (symmetry; apply Z.eqb_neq; unfold len; simpl; lia).
    rewrite read_settled_1. simpl negb. cbv iota.
    rewrite read_settled_1.
    rewrite bool_decide_eq_false_2 by done.
    rewrite (bool_decide_eq_false_2 ([bad] = [83])) by (by intros [= ->]).
    done.
Qed.

Lemma bad_frames_discarded_witness :
  (exists k,
     read_frame 1
       {| UART.rx := frame_header 1 2 ++ concat [[72; 105]] ++ 4 :: [2];
          UART.incoming := [] |} (init 1 1)
     = Some (Ret false, settled k [2] [], init 1 1)) /\
  read_frame 1 {| UART.rx := 2 :: 2 :: [83; 0; 0; 3]; UART.incoming := [] |}
    (init 1 1)
  = Some (Ret false, settled 3 [83; 0; 0; 3] [], init 1 1).
Proof.
  split.
  - apply (bad_frames_discarded 1 2 [[72; 105]] [2] [] (init 1 1) 1 4).
    + split; [reflexivity|]. repeat constructor.
    + lia.
    + discriminate.
  - apply (bad_frames_discarded 0 0 [] [83; 0; 0; 3] [] (init 1 1) 1 2).
    + split; [reflexivity|]. constructor.
    + lia.
    + discriminate.
Defined.

(** ** The polling loop *)

Lemma pending_nil u : pending u = [] -> UART.rx u = [] /\ pending (UART.arrive u) = [].
Proof.
  intros H. split; [|by rewrite arrive_pending].
  unfold pending in H. by apply app_eq_nil in H as [-> _].
Qed.

Lemma read_frame_silent fuel u term :
  pending u = [] ->
  read_frame fuel u term = Some (Ret false, UART.arrive u, term).
Proof.
  intros H. apply pending_nil in H as [_ H]. apply pending_nil in H as [H _].
  unfold read_frame, UART.any. by rewrite H.
Qed.

(** X8. On a silent link the loop does nothing: when no byte is in the
    receive buffer and none is still to come, any number of turns goes
    by without an exception and leaves the terminal view and the
    display as they were. *)
Theorem main_loop_silent :
  forall fuel n u d,
    pending u = [] ->
    exists u',
      main_loop fuel n u d = Some (Ret (), u', d) /\ pending u' = [].
Proof.
  intros fuel n. induction n as [|n IH]; intros u [term lcd] Hu.
  - by exists u.
  - simpl main_loop. unfold main_step. simpl fst.
    rewrite read_frame_silent by done. simpl snd.
    apply IH. by rewrite arrive_pending.
Qed.

Lemma main_loop_silent_witness :
  exists u',
    main_loop 0 5 {| UART.rx := []; UART.incoming := [[]; []] |} (init 1 1, [])
    = Some (Ret (), u', (init 1 1, [])) /\ pending u' = [].
Proof.
  apply (main_loop_silent 0 5 {| UART.rx := []; UART.incoming := [[]; []] |}
           (init 1 1, [])).
  reflexivity.
Defined.

(** ** What reaches the display *)

Lemma cell_printable b : printable (cell b).
Proof. rewrite cell_sanitize. apply sanitize_byte_printable. Qed.

Lemma fill_cols_printable data r cs :
  forall buf idx,
    Forall (Forall printable) buf ->
    Forall (Forall printable) (fill_cols data r cs buf idx).1.2.
Proof.
  induction cs as [|c cs IH]; intros buf idx Hbuf; simpl; [done|].
  destruct (data !! idx) as [b|]; [|done].
  destruct (buf !! r) as [row|] eqn:Hr; [|done].
  destruct (decide (c < length row)%nat); [|done].
  apply IH, Forall_insert; [done|].
  apply Forall_insert; [|apply cell_printable].
  by apply (proj1 (Forall_lookup _ _) Hbuf r).
Qed.

Lemma fill_rows_printable data ncols rs :
  forall buf idx,
    Forall (Forall printable) buf ->
    Forall (Forall printable) (fill_rows data rs ncols buf idx).1.2.
Proof.
  induction rs as [|r rs IH]; intros buf idx Hbuf; simpl; [done|].
  pose proof (fill_cols_printable data r (seq 0 ncols) buf idx Hbuf) as Hc.
  destruct (fill_cols data r (seq 0 ncols) buf idx) as [[[[]|ex] buf'] idx'];
    simpl in Hc; [|done].
  by apply IH.
Qed.

Lemma blank_printable nrows ncols : Forall (Forall printable) (blank nrows ncols).
Proof.
  unfold blank, spaces. apply Forall_replicate, Forall_replicate.
  unfold printable. lia.
Qed.

Lemma apply_snapshot_printable term nrows ncols data :
  cells_printable term ->
  cells_printable (apply_snapshot term nrows ncols data).2.
Proof.
  intros Hterm. unfold cells_printable, apply_snapshot.
  destruct (negb (nrows =? rows term) || negb (ncols =? cols term)).
  - pose proof (fill_rows_printable data (Z.to_nat ncols)
                  (seq 0 (Z.to_nat nrows)) (blank nrows ncols) 0%nat
                  (blank_printable nrows ncols)) as H.
    simpl buffer. by destruct (fill_rows _ _ _ _ _) as [[o buf] idx].
  - pose proof (fill_rows_printable data (Z.to_nat ncols)
                  (seq 0 (Z.to_nat nrows)) (buffer term) 0%nat Hterm) as H.
    by destruct (fill_rows _ _ _ _ _) as [[o buf] idx].
Qed.

Lemma reachable_printable term : reachable term -> cells_printable term.
Proof.
  induction 1 as [nrows ncols|term nrows ncols data term' _ IH Hsnap
                  |term delta _ IH|term delta _ IH]; [|
    |done|done].
  - apply blank_printable.
  - pose proof (apply_snapshot_printable term nrows ncols data IH) as H.
    by rewrite Hsnap in H.
Qed.

Lemma slice_printable (l : list Z) a b :
  Forall printable l -> Forall printable (slice l a b).
Proof. intros H. unfold slice. by apply Forall_take, Forall_drop. Qed.

Lemma window_loop_printable term width rs :
  cells_printable term ->
  forall acc lines,
    Forall (Forall printable) acc ->
    window_loop term width rs acc = Ret lines ->
    Forall (Forall printable) lines.
Proof.
  intros Hterm. induction rs as [|r rs IH]; intros acc lines Hacc; simpl.
  - by intros [= <-].
  - unfold window_line.
    destruct (window_span term width) as [start stop].
    destruct (index (buffer term) (window_row term r)) as [line|] eqn:Hline;
      [|done].
    apply IH, Forall_app. split; [done|]. constructor; [|done].
    assert (Hl : Forall printable line).
    { unfold index in Hline.
      destruct (0 <=? window_row term r);
        [|destruct (0 <=? window_row term r + len (buffer term)); [|done]];
        by apply (proj1 (Forall_lookup _ _) Hterm _ _ Hline). }
    destruct (len (slice line start stop) <? width); [|by apply slice_printable].
    apply Forall_app. split; [by apply slice_printable|].
    apply Forall_replicate. unfold printable. lia.
Qed.

(** X9. Only printable ASCII is ever shown.  In every reachable state
    all buffer cells are in 0x20..0x7E, and so is every character of
    every line [window_lines] returns, for any width and height. *)
Theorem window_lines_printable :
  forall term width height lines,
    reachable term ->
    cells_printable term /\
    (window_lines term width height = Ret lines ->
     Forall (Forall printable) lines).
Proof.
  intros term width height lines Hreach.
  pose proof (reachable_printable term Hreach) as Hp.
  split; [done|]. by apply window_loop_printable.
Qed.

Lemma window_lines_printable_witness :
  cells_printable (scroll_v (apply_snapshot (init 1 1) 1 2 [7; 200]).2 3) /\
  (window_lines (scroll_v (apply_snapshot (init 1 1) 1 2 [7; 200]).2 3) 3 1
   = Ret [[32; 32; 32]] ->
   Forall (Forall printable) [[32; 32; 32]]).
Proof.
  apply (window_lines_printable _ 3 1 [[32; 32; 32]]).
  apply reach_scroll_v.
  apply (reach_snapshot (init 1 1) 1 2 [7; 200]); [apply reach_init|reflexivity].
Defined.

(** ** What the window shows *)

Lemma window_loop_map term width (f : Z -> list Z) rs :
  forall acc,
    Forall (fun r => window_line term width r = Ret (f r)) rs ->
    window_loop term width rs acc = Ret (acc ++ (f <$> rs)).
Proof.
  induction rs as [|r rs IH]; intros acc Hrs; simpl.
  - by rewrite app_nil_r.
  - inversion Hrs as [|? ? Hr Hrs']; subst. rewrite Hr, IH by done.
    by rewrite <- app_assoc.
Qed.

(** X10. The window.  In a reachable state with at least one row, for
    non-negative width and height, [window_lines] returns [height]
    lines, and character [j] of line [r] is the buffer cell in row
    [min(rows - 1, v_off + r)], column [h_off + j], or a space when that
    column is beyond the right edge of the grid. *)
Theorem window_lines_content :
  forall term width height,
    reachable term -> 1 <= rows term -> 0 <= cols term ->
    0 <= width -> 0 <= height ->
    exists lines,
      window_lines term width height = Ret lines /\
      len lines = height /\
      forall r j : nat,
        Z.of_nat r < height -> Z.of_nat j < width ->
        lines !! r ≫= (fun line => line !! j)
        = Some (default 32
                  (buffer term !! Z.to_nat (window_row term (Z.of_nat r))
                     ≫= (fun row => row !! Z.to_nat (h_off term + Z.of_nat j)))).
Proof.
  intros term width height Hreach Hrows Hcols Hwidth Hheight.
  pose proof (reachable_ok term Hreach) as Hok.
  destruct Hok as ([Hlen Hall] & Hv & Hh).
  set (start := h_off term).
  set (stop := Z.min (cols term) (start + width)).
  set (f := fun r : Z =>
         let line := default [] (buffer term !! Z.to_nat (window_row term r)) in
         let s := slice line start stop in
         if len s <? width then s ++ spaces (width - len s) else s).
  assert (Hrow : forall r, 0 <= r ->
            exists line,
              buffer term !! Z.to_nat (window_row term r) = Some line /\
              len line = cols term).
  { intros r Hr. unfold window_row.
    destruct (buffer term !! Z.to_nat (Z.min (rows term - 1) (v_off term + r)))
      as [line|] eqn:Hline.
    - exists line. split; [done|].
      pose proof (proj1 (Forall_lookup _ _) Hall _ _ Hline) as Hl.
      simpl in Hl. lia.
    - apply lookup_ge_None in Hline. unfold len in Hlen. lia. }
  assert (Hline : forall r, 0 <= r -> window_line term width r = Ret (f r)).
  { intros r Hr. destruct (Hrow r Hr) as (line & Hl & _).
    unfold window_line, window_span, index, f. fold start. fold stop.
    destruct (Z.leb_spec 0 (window_row term r));
      [|unfold window_row in *; lia].
    by rewrite Hl. }
  exists (f <$> range height). split; [|split].
  - unfold window_lines. rewrite (window_loop_map term width f); [done|].
    eapply Forall_impl; [|apply range_nonneg]. simpl. intros r Hr. by apply Hline.
  - unfold len. rewrite length_fmap, range_length. lia.
  - intros r j Hr Hj. unfold range.
    rewrite !list_lookup_fmap, lookup_seq_lt by lia. simpl.
    destruct (Hrow (Z.of_nat r) ltac:(lia)) as (line & Hl & Hll).
    unfold f. rewrite Hl. simpl.
    assert (Hs : len (slice line start stop) = stop - start)
      by (apply slice_length; unfold start, stop; lia).
    assert (Hsl : forall i : nat,
              Z.of_nat i < stop - start ->
              slice line start stop !! i = line !! Z.to_nat (start + Z.of_nat i)).
    { intros i Hi. unfold slice, clip.
      destruct (Z.ltb_spec start 0); [unfold start in *; lia|].
      destruct (Z.ltb_spec stop 0); [unfold start, stop in *; lia|].
      rewrite !Z.min_l by (unfold start, stop in *; lia).
      rewrite lookup_take_lt, lookup_drop by lia. f_equal. lia. }
    destruct (Z.ltb_spec (len (slice line start stop)) width) as [Hlt|Hge].
    + destruct (decide (Z.of_nat j < stop - start)) as [Hin|Hout].
      * rewrite lookup_app_l by (unfold len in Hs; lia).
        rewrite Hsl by done. fold start.
        destruct (line !! Z.to_nat (start + Z.of_nat j)) eqn:Hc; [done|].
        apply lookup_ge_None in Hc. unfold len, start, stop in *. lia.
      * rewrite lookup_app_r by (unfold len in Hs; lia).
        unfold spaces. rewrite lookup_replicate_2 by (unfold len in *; lia).
        fold start.
        rewrite (proj2 (lookup_ge_None line _));
          [done|unfold len, start, stop in *; lia].
    + rewrite Hsl by lia. fold start.
      destruct (line !! Z.to_nat (start + Z.of_nat j)) eqn:Hc; [done|].
      apply lookup_ge_None in Hc. unfold len, start, stop in *. lia.
Qed.

Lemma window_lines_content_witness :
  let term := scroll_h (apply_snapshot (init 1 1) 2 3 [65; 66; 67; 68; 69; 70]).2 2 in
  exists lines,
    window_lines term 2 2 = Ret lines /\
    len lines = 2 /\
    forall r j : nat,
      Z.of_nat r < 2 -> Z.of_nat j < 2 ->
      lines !! r ≫= (fun line => line !! j)
      = Some (default 32
                (buffer term !! Z.to_nat (window_row term (Z.of_nat r))
                   ≫= (fun row => row !! Z.to_nat (h_off term + Z.of_nat j)))).
Proof.
  intros term. apply (window_lines_content term 2 2).
  - apply reach_scroll_h.
    apply (reach_snapshot (init 1 1) 2 3 [65; 66; 67; 68; 69; 70]);
      [apply reach_init|reflexivity].
  - vm_compute. discriminate.
  - vm_compute. discriminate.
  - lia.
  - lia.
Defined.

(** ** Scrolling *)

(** X11. How scroll steps compose.  Vertical and horizontal scrolling
    commute.  Two vertical steps add up when the first one is not
    clamped; when the first one is clamped the overshoot is forgotten,
    so scrolling far past the bottom and then back by [k] ends [k] rows
    above the last row.  The same holds horizontally. *)
Theorem scroll_compose :
  forall term d1 d2,
    offsets_in_range term ->
    scroll_v (scroll_h term d1) d2 = scroll_h (scroll_v term d2) d1 /\
    (0 <= v_off term + d1 <= rows term - 1 ->
     scroll_v (scroll_v term d1) d2 = scroll_v term (d1 + d2)) /\
    (0 <= h_off term + d1 <= cols term - 1 ->
     scroll_h (scroll_h term d1) d2 = scroll_h term (d1 + d2)) /\
    (rows term - 1 <= v_off term + d1 -> 0 <= d2 <= rows term - 1 ->
     v_off (scroll_v (scroll_v term d1) (- d2)) = rows term - 1 - d2) /\
    (cols term - 1 <= h_off term + d1 -> 0 <= d2 <= cols term - 1 ->
     h_off (scroll_h (scroll_h term d1) (- d2)) = cols term - 1 - d2).
Proof.
  intros term d1 d2 [Hv Hh]. unfold scroll_v, scroll_h. simpl.
  split; [done|]. split; [|split; [|split]].
  - intros H. f_equal. lia.
  - intros H. f_equal. lia.
  - lia.
  - lia.
Qed.

Lemma scroll_compose_witness :
  let term := init 24 80 in
  scroll_v (scroll_h term 5) 3 = scroll_h (scroll_v term 3) 5 /\
  (0 <= v_off term + 5 <= rows term - 1 ->
   scroll_v (scroll_v term 5) 3 = scroll_v term (5 + 3)) /\
  (0 <= h_off term + 5 <= cols term - 1 ->
   scroll_h (scroll_h term 5) 3 = scroll_h term (5 + 3)) /\
  (rows term - 1 <= v_off term + 5 -> 0 <= 3 <= rows term - 1 ->
   v_off (scroll_v (scroll_v term 5) (- 3)) = rows term - 1 - 3) /\
  (cols term - 1 <= h_off term + 5 -> 0 <= 3 <= cols term - 1 ->
   h_off (scroll_h (scroll_h term 5) (- 3)) = cols term - 1 - 3).
Proof.
  intros term. apply (scroll_compose term 5 3).
  unfold offsets_in_range. simpl. lia.
Defined.

(** ** A frame through the polling loop *)

Lemma index_0 {A} (x : A) l : index (x :: l) 0 = Some x.
Proof. done. Qed.

Lemma index_1 {A} (x y : A) l : index (x :: y :: l) 1 = Some y.
Proof. done. Qed.

(** X12. A frame with at least one row, received in a reachable state,
    goes through one turn of the loop without an exception: the view
    holds the frame's sanitised grid and the display is handed two lines
    of exactly [LCD_COLS] characters. *)
Theorem main_step_shows_frame :
  forall nrows ncols grid rest sched term lcd fuel,
    reachable term ->
    grid_shape nrows ncols grid ->
    1 <= nrows ->
    (1 <= fuel)%nat ->
    exists u' term' l0 l1,
      main_step fuel
        {| UART.rx := wire_frame nrows ncols grid ++ rest;
           UART.incoming := sched |} (term, lcd)
      = Some (Ret (), u', (term', [l0; l1])) /\
      rows term' = nrows /\ cols term' = ncols /\
      buffer term' = sanitize grid /\
      window_lines term' LCD_COLS LCD_ROWS = Ret [l0; l1] /\
      len l0 = LCD_COLS /\ len l1 = LCD_COLS.
Proof.
  intros nrows ncols grid rest sched term lcd fuel Hreach Hgrid Hrows Hfuel.
  pose proof (reachable_ok term Hreach) as (Hshape & _).
  assert (Hcols : 0 <= ncols).
  { destruct Hgrid as [Hlen Hall]. destruct grid as [|line grid].
    - unfold len in Hlen. simpl in Hlen. lia.
    - inversion Hall as [|? ? Hl _]; subst. unfold len. lia. }
  pose proof (apply_snapshot_ok term nrows ncols grid Hshape Hgrid) as Hok.
  set (term' := (apply_snapshot term nrows ncols (concat grid)).2) in *.
  assert (Hreach' : reachable term').
  { apply (reach_snapshot term nrows ncols (concat grid)); [done|].
    unfold term'. by rewrite Hok. }
  assert (Hr' : rows term' = nrows) by (unfold term'; by rewrite Hok).
  assert (Hc' : cols term' = ncols) by (unfold term'; by rewrite Hok).
  destruct (window_lines_in_bounds term' LCD_COLS LCD_ROWS Hreach')
    as ((lines & Hlines & Hlen & Hall) & _);
    [lia|lia|unfold LCD_COLS; lia|unfold LCD_ROWS; lia|].
  destruct lines as [|l0 [|l1 [|l2 lines]]];
    try (unfold len, LCD_ROWS in Hlen; simpl in Hlen; lia).
  pose proof (Forall_inv Hall) as Hl0.
  pose proof (Forall_inv (Forall_inv_tail Hall)) as Hl1.
  simpl in Hl0, Hl1.
  rewrite settled_0.
  destruct (read_frame_buffered fuel 0 nrows ncols grid rest sched term
              Hgrid Hshape Hfuel) as [k' Hread].
  exists (settled k' rest sched), term', l0, l1.
  split; [|split; [done|split; [done|split; [|done]]]].
  - unfold main_step. simpl fst. rewrite Hread. fold term'.
    unfold show, render. rewrite Hlines, index_0, index_1.
    by rewrite !slice_all by done.
  - unfold term'. by rewrite Hok.
Qed.

Lemma main_step_shows_frame_witness :
  exists u' term' l0 l1,
    main_step 1
      {| UART.rx := wire_frame 1 2 [[72; 105]] ++ []; UART.incoming := [] |}
      (init 1 1, [])
    = Some (Ret (), u', (term', [l0; l1])) /\
    rows term' = 1 /\ cols term' = 2 /\
    buffer term' = sanitize [[72; 105]] /\
    window_lines term' LCD_COLS LCD_ROWS = Ret [l0; l1] /\
    len l0 = LCD_COLS /\ len l1 = LCD_COLS.
Proof.
  apply (main_step_shows_frame 1 2 [[72; 105]] [] [] (init 1 1) [] 1).
  - apply reach_init.
  - split; [reflexivity|]. repeat constructor.
  - lia.
  - lia.
Defined.

(** ** The LCD driver *)

Lemma land_1 x : Z.land x 1 = x mod 2.
Proof. change 1 with (Z.ones 1). by rewrite Z.land_ones. Qed.

Lemma nibble_of_lines rs val : nibble (nibble_lines rs val) = val mod 16.
Proof.
  unfold nibble, nibble_lines. simpl.
  rewrite !land_1, !Z.shiftr_div_pow2 by lia.
  change (2 ^ 0) with 1. change (2 ^ 1) with 2.
  change (2 ^ 2) with 4. change (2 ^ 3) with 8.
  Z.to_euclidean_division_equations. lia.
Qed.

Lemma transfers_byte rs b ps :
  transfers (byte_strobes rs b ++ ps) = (rs, b mod 256) :: transfers ps.
Proof.
  unfold byte_strobes. simpl. rewrite !nibble_of_lines. do 2 f_equal.
  change 15 with (Z.ones 4). rewrite Z.land_ones, Z.shiftr_div_pow2 by lia.
  change (2 ^ 4) with 16.
  Z.to_euclidean_division_equations. lia.
Qed.

Lemma command_strobes lcd cmd :
  LCD.strobes (LCD.command lcd cmd) = LCD.strobes lcd ++ byte_strobes 0 cmd.
Proof. unfold LCD.command, LCD._write4, LCD._pulse. simpl. by rewrite <- app_assoc. Qed.

Lemma write_char_strobes lcd ch :
  LCD.strobes (LCD.write_char lcd ch) = LCD.strobes lcd ++ byte_strobes 1 ch.
Proof.
  unfold LCD.write_char, LCD._write4, LCD._pulse. simpl. by rewrite <- app_assoc.
Qed.

Lemma write_chars_strobes chars :
  forall lcd,
    LCD.strobes (foldl LCD.write_char lcd chars)
    = LCD.strobes lcd ++ concat (byte_strobes 1 <$> chars) /\
    LCD.cols (foldl LCD.write_char lcd chars) = LCD.cols lcd /\
    LCD.rows (foldl LCD.write_char lcd chars) = LCD.rows lcd.
Proof.
  induction chars as [|ch chars IH]; intros lcd; simpl.
  - by rewrite app_nil_r.
  - destruct (IH (LCD.write_char lcd ch)) as (-> & -> & ->).
    rewrite write_char_strobes, <- app_assoc. done.
Qed.

Lemma transfers_data (s : list Z) ps :
  transfers (concat (byte_strobes 1 <$> s) ++ ps) = data_bytes s ++ transfers ps.
Proof.
  induction s as [|ch s IH]; [done|].
  rewrite fmap_cons, concat_cons, <- app_assoc, transfers_byte, IH. done.
Qed.

(** X13. One byte, two strobes.  [command] and [write_char] each add
    exactly two strobes, which the display reads as one transfer, high
    nibble first: RS low and the command byte, or RS high and the
    character; of a value outside 0..255 only the low eight bits are
    sent. *)
Theorem lcd_sends_byte :
  forall lcd b,
    (exists ps,
       LCD.strobes (LCD.command lcd b) = LCD.strobes lcd ++ ps /\
       length ps = 2%nat /\ transfers ps = [(0, b mod 256)]) /\
    (exists ps,
       LCD.strobes (LCD.write_char lcd b) = LCD.strobes lcd ++ ps /\
       length ps = 2%nat /\ transfers ps = [(1, b mod 256)]) /\
    (0 <= b < 256 -> b mod 256 = b).
Proof.
  intros lcd b. split; [|split].
  - exists (byte_strobes 0 b). split; [apply command_strobes|]. split; [done|].
    by rewrite <- (app_nil_r (byte_strobes 0 b)), transfers_byte.
  - exists (byte_strobes 1 b). split; [apply write_char_strobes|]. split; [done|].
    by rewrite <- (app_nil_r (byte_strobes 1 b)), transfers_byte.
  - intros H. by apply Z.mod_small.
Qed.

Lemma lor_128 addr : 0 <= addr < 128 -> Z.lor 128 addr = 128 + addr.
Proof.
  intros H.
  assert (Hland : Z.land 128 addr = 0).
  { rewrite <- (Z.mod_small addr 128) by lia.
    change 128 with (2 ^ 7) at 2. rewrite <- Z.land_ones by lia.
    rewrite Z.land_assoc, (Z.land_comm 128 addr), <- Z.land_assoc.
    change (Z.land 128 (Z.ones 7)) with 0. apply Z.land_0_r. }
  rewrite <- Z.lxor_lor by done. symmetry. by apply Z.add_nocarry_lxor.
Qed.

(** X14. [set_cursor] clamps.  On a display of at most two rows and 64
    columns, whatever column and row are asked for, the one command it
    sends is "set DDRAM address" (0x80 plus the address) for a position
    inside the display: the column clamped to [0, cols-1], plus 0x40 on
    the second row. *)
Theorem set_cursor_clamped :
  forall lcd col row,
    1 <= LCD.cols lcd <= 64 -> 1 <= LCD.rows lcd <= 2 ->
    exists ps c r,
      LCD.strobes (LCD.set_cursor lcd col row) = LCD.strobes lcd ++ ps /\
      transfers ps = [(0, 128 + c + 64 * r)] /\
      0 <= c < LCD.cols lcd /\ 0 <= r < LCD.rows lcd /\
      (0 <= col < LCD.cols lcd -> c = col) /\
      (0 <= row < LCD.rows lcd -> r = row).
Proof.
  intros lcd col row Hc Hr. unfold LCD.set_cursor.
  set (r := Z.max 0 (Z.min (LCD.rows lcd - 1) row)).
  set (c := Z.max 0 (Z.min (LCD.cols lcd - 1) col)).
  exists (byte_strobes 0 (Z.lor 128 (c + 64 * r))), c, r.
  split; [apply command_strobes|]. split.
  - rewrite <- (app_nil_r (byte_strobes _ _)), transfers_byte.
    rewrite lor_128 by (unfold c, r; lia).
    rewrite Z.mod_small by (unfold c, r; lia). simpl. do 2 f_equal. lia.
  - unfold c, r. lia.
Qed.

Lemma set_cursor_clamped_witness :
  exists ps c r,
    LCD.strobes (LCD.set_cursor (LCD.init 16 2) 99 (-1))
    = LCD.strobes (LCD.init 16 2) ++ ps /\
    transfers ps = [(0, 128 + c + 64 * r)] /\
    0 <= c < LCD.cols (LCD.init 16 2) /\ 0 <= r < LCD.rows (LCD.init 16 2) /\
    (0 <= 99 < LCD.cols (LCD.init 16 2) -> c = 99) /\
    (0 <= -1 < LCD.rows (LCD.init 16 2) -> r = -1).
Proof.
  apply (set_cursor_clamped (LCD.init 16 2) 99 (-1)); simpl; lia.
Defined.

(** X15. [write_str] cuts to the display width.  It sends the first
    [cols] characters of the string, one data transfer each and in
    order, and nothing for the rest. *)
Theorem write_str_truncates :
  forall lcd s,
    0 <= LCD.cols lcd ->
    exists ps,
      LCD.strobes (LCD.write_str lcd s) = LCD.strobes lcd ++ ps /\
      transfers ps = data_bytes (take (Z.to_nat (LCD.cols lcd)) s) /\
      LCD.cols (LCD.write_str lcd s) = LCD.cols lcd /\
      LCD.rows (LCD.write_str lcd s) = LCD.rows lcd.
Proof.
  intros lcd s Hc. unfold LCD.write_str.
  assert (Hslice : slice s 0 (LCD.cols lcd) = take (Z.to_nat (LCD.cols lcd)) s).
  { unfold slice, clip. destruct (Z.ltb_spec 0 0); [lia|].
    destruct (Z.ltb_spec (LCD.cols lcd) 0); [lia|].
    rewrite (Z.min_l 0) by (unfold len; lia). rewrite Z.sub_0_r. simpl.
    rewrite drop_0. unfold len.
    destruct (Z.min_spec (LCD.cols lcd) (Z.of_nat (length s))) as [[_ ->]|[Hle ->]];
      [done|].
    rewrite Nat2Z.id. rewrite !take_ge by lia. done. }
  rewrite Hslice.
  destruct (write_chars_strobes (take (Z.to_nat (LCD.cols lcd)) s) lcd)
    as (Hs & Hcols & Hrows).
  eexists. split; [exact Hs|]. split; [|done].
  by rewrite <- (app_nil_r (concat _)), transfers_data, app_nil_r.
Qed.

Lemma write_str_truncates_witness :
  exists ps,
    LCD.strobes (LCD.write_str (LCD.init 2 1) [72; 105; 33])
    = LCD.strobes (LCD.init 2 1) ++ ps /\
    transfers ps = data_bytes (take (Z.to_nat (LCD.cols (LCD.init 2 1)))
                                 [72; 105; 33]) /\
    LCD.cols (LCD.write_str (LCD.init 2 1) [72; 105; 33])
    = LCD.cols (LCD.init 2 1) /\
    LCD.rows (LCD.write_str (LCD.init 2 1) [72; 105; 33])
    = LCD.rows (LCD.init 2 1).
Proof.
  apply (write_str_truncates (LCD.init 2 1) [72; 105; 33]). simpl. lia.
Defined.

(** ** [render] on the pins *)

Lemma window_lines_two term width lines :
  window_lines term width LCD_ROWS = Ret lines ->
  exists l0 l1, lines = [l0; l1].
Proof.
  unfold window_lines. change (range LCD_ROWS) with [0; 1]. simpl.
  destruct (window_line term width 0) as [l0|]; [|done].
  destruct (window_line term width 1) as [l1|]; [|done].
  intros [= <-]. by eexists _, _.
Qed.

Lemma set_cursor_strobes lcd col row :
  LCD.strobes (LCD.set_cursor lcd col row)
  = LCD.strobes lcd
    ++ byte_strobes 0
         (Z.lor 128 (Z.max 0 (Z.min (LCD.cols lcd - 1) col)
                     + 64 * Z.max 0 (Z.min (LCD.rows lcd - 1) row))) /\
  LCD.cols (LCD.set_cursor lcd col row) = LCD.cols lcd /\
  LCD.rows (LCD.set_cursor lcd col row) = LCD.rows lcd.
Proof. unfold LCD.set_cursor. by rewrite command_strobes. Qed.

Lemma write_str_strobes lcd s :
  LCD.strobes (LCD.write_str lcd s)
  = LCD.strobes lcd ++ concat (byte_strobes 1 <$> slice s 0 (LCD.cols lcd)) /\
  LCD.cols (LCD.write_str lcd s) = LCD.cols lcd /\
  LCD.rows (LCD.write_str lcd s) = LCD.rows lcd.
Proof. unfold LCD.write_str. apply write_chars_strobes. Qed.

(** X16. What [render] puts on the pins of the 16x2 display: the
    cursor command for the start of the first row (0x80), the first
    window line as data, the cursor command for the start of the second
    row (0xC0), the second window line as data, and nothing else.  When
    [window_lines] raises, the display is not touched. *)
Theorem render_lcd_transfers :
  forall lcd term,
    LCD.cols lcd = LCD_COLS -> LCD.rows lcd = LCD_ROWS ->
    (forall shown,
       render term = Ret shown ->
       exists s0 s1 lcd' ps,
         shown = [s0; s1] /\
         render_lcd lcd term = (Ret (), lcd') /\
         LCD.strobes lcd' = LCD.strobes lcd ++ ps /\
         transfers ps
         = (0, 128) :: data_bytes s0 ++ (0, 192) :: data_bytes s1) /\
    (forall ex,
       render term = Raise ex -> render_lcd lcd term = (Raise ex, lcd)).
Proof.
  intros lcd term Hcols Hrows. unfold render, render_lcd.
  destruct (window_lines term LCD_COLS LCD_ROWS) as [lines|ex] eqn:Hlines.
  - destruct (window_lines_two _ _ _ Hlines) as (l0 & l1 & ->).
    rewrite index_0, index_1. split; [|done].
    intros shown [= <-].
    destruct (set_cursor_strobes lcd 0 0) as (Hs1 & Hc1 & Hr1).
    set (lcd1 := LCD.set_cursor lcd 0 0) in *.
    destruct (write_str_strobes lcd1 l0) as (Hs2 & Hc2 & Hr2).
    set (lcd2 := LCD.write_str lcd1 l0) in *.
    destruct (set_cursor_strobes lcd2 0 1) as (Hs3 & Hc3 & Hr3).
    set (lcd3 := LCD.set_cursor lcd2 0 1) in *.
    destruct (write_str_strobes lcd3 l1) as (Hs4 & _ & _).
    eexists _, _, _, _. split; [done|]. split; [done|].
    rewrite Hs4, Hs3, Hs2, Hs1, Hc3, Hc2, Hc1, Hr2, Hr1, Hcols, Hrows.
    rewrite <- !app_assoc. split; [done|].
    rewrite transfers_byte, transfers_data, transfers_byte.
    rewrite <- (app_nil_r (concat _)), transfers_data, app_nil_r.
    done.
  - split; [done|]. by intros ex' [= <-].
Qed.

Lemma render_lcd_transfers_witness :
  let term := (apply_snapshot (init 1 1) 1 2 [72; 105]).2 in
  exists s0 s1 lcd' ps,
    [[72; 105; 32; 32; 32; 32; 32; 32; 32; 32; 32; 32; 32; 32; 32; 32];
     [72; 105; 32; 32; 32; 32; 32; 32; 32; 32; 32; 32; 32; 32; 32; 32]]
    = [s0; s1] /\
    render_lcd (LCD.init 16 2) term = (Ret (), lcd') /\
    LCD.strobes lcd' = LCD.strobes (LCD.init 16 2) ++ ps /\
    transfers ps = (0, 128) :: data_bytes s0 ++ (0, 192) :: data_bytes s1.
Proof.
  intros term.
  apply (proj1 (render_lcd_transfers (LCD.init 16 2) term eq_refl eq_refl)).
  reflexivity.
Defined.

(** ** The quadrature decoder on any valid signal *)

Lemma handler_count_steps self a b sum :
  Encoder._handler count_steps self a b sum
  = if Z.lor (Z.shiftl a 1) b =? Encoder.last self then (self, sum)
    else ({| Encoder.last := Z.lor (Z.shiftl a 1) b |},
          sum + (if Encoder.forward (Encoder.last self) (Z.lor (Z.shiftl a 1) b)
                 then 1 else -1)).
Proof. done. Qed.

Ltac eval_phase :=
  repeat match goal with
  | |- context [Z.lor (Z.shiftl ?a 1) ?b] =>
      let v := eval vm_compute in (Z.lor (Z.shiftl a 1) b) in
      change (Z.lor (Z.shiftl a 1) b) with v in *
  end;
  repeat match goal with
  | |- context [Encoder.forward ?x ?y] =>
      let v := eval vm_compute in (Encoder.forward x y) in
      change (Encoder.forward x y) with v
  | |- context [?x =? ?y] =>
      let v := eval vm_compute in (x =? y) in
      change (x =? y) with v
  end.

(** X17. The decoder tracks the knob.  On any sequence of samples in
    which the phase moves to a neighbour on the Gray-code circle or
    stays (no skipped phase), the cumulative step sum changes by the
    distance travelled round the circle, modulo one full turn of four
    steps, and by at most one per sample. *)
Theorem quadrature_tracks_position :
  forall pins self sum,
    0 <= Encoder.last self <= 3 ->
    no_skips (Encoder.last self) pins ->
    ((Encoder.run count_steps self pins sum).2 - sum) mod 4
    = (gray_index (Encoder.last (Encoder.run count_steps self pins sum).1)
       - gray_index (Encoder.last self)) mod 4 /\
    Z.abs ((Encoder.run count_steps self pins sum).2 - sum) <= len pins.
Proof.
  induction pins as [|[a b] pins IH]; intros [l] sum Hl Hpins.
  - simpl. rewrite !Z.sub_diag. split; [done|]. unfold len. simpl. lia.
  - simpl in Hl. simpl in Hpins. destruct Hpins as (Ha & Hb & Hskip & Hrest).
    assert (Hcases : l = 0 \/ l = 1 \/ l = 2 \/ l = 3) by lia.
    change (Encoder.run count_steps {| Encoder.last := l |} ((a, b) :: pins) sum)
      with (let '(self', s') :=
              Encoder._handler count_steps {| Encoder.last := l |} a b sum in
            Encoder.run count_steps self' pins s').
    rewrite handler_count_steps. simpl Encoder.last in *.
    destruct Ha as [-> | ->], Hb as [-> | ->],
      Hcases as [-> | [-> | [-> | ->]]];
      eval_phase; cbv iota beta;
      try (exfalso; apply Hskip; reflexivity);
      match goal with
      | |- context [Encoder.run count_steps ?s pins ?x] =>
          specialize (IH s x ltac:(simpl; lia) Hrest);
          destruct IH as [IH1 IH2];
          destruct (Encoder.run count_steps s pins x) as [self' sum']
      end;
      simpl in *; unfold len in *; simpl length;
      (split; [|lia]);
      revert IH1; generalize (gray_index (Encoder.last self')); intros g;
      cbv [gray_index Z.eqb Pos.eqb];
      Z.to_euclidean_division_equations; lia.
Qed.

Lemma quadrature_tracks_position_witness :
  ((Encoder.run count_steps (Encoder.init 0 0)
      [(0, 1); (1, 1); (0, 1); (0, 1); (0, 0); (1, 0)] 0).2 - 0) mod 4
  = (gray_index
       (Encoder.last
          (Encoder.run count_steps (Encoder.init 0 0)
             [(0, 1); (1, 1); (0, 1); (0, 1); (0, 0); (1, 0)] 0).1)
     - gray_index (Encoder.last (Encoder.init 0 0))) mod 4 /\
  Z.abs ((Encoder.run count_steps (Encoder.init 0 0)
            [(0, 1); (1, 1); (0, 1); (0, 1); (0, 0); (1, 0)] 0).2 - 0)
  <= len [(0, 1); (1, 1); (0, 1); (0, 1); (0, 0); (1, 0)].
Proof.
  apply (quadrature_tracks_position
           [(0, 1); (1, 1); (0, 1); (0, 1); (0, 0); (1, 0)]
           (Encoder.init 0 0) 0).
  - vm_compute. split; discriminate.
  - unfold no_skips, level. vm_compute.
    repeat split; (by left) || (by right) || discriminate.
Defined.

(** ** Bursts of button triggers *)

Lemma triggers_app {St} (on_click : St -> outcome unit * St) ts1 :
  forall ts2 self s,
    triggers on_click self (ts1 ++ ts2) s
    = let '(n1, self1, s1) := triggers on_click self ts1 s in
      let '(n2, self2, s2) := triggers on_click self1 ts2 s1 in
      ((n1 + n2)%nat, self2, s2).
Proof.
  induction ts1 as [|[now pin] ts1 IH]; intros ts2 self s; simpl.
  - by destruct (triggers on_click self ts2 s) as [[n2 self2] s2].
  - destruct (Button._handler on_click self now pin s) as [[acc self'] s'].
    rewrite IH.
    destruct (triggers on_click self' ts1 s') as [[n1 self1] s1].
    destruct (triggers on_click self1 ts2 s1) as [[n2 self2] s2].
    by destruct acc.
Qed.

Lemma triggers_bounce {St} (on_click : St -> outcome unit * St) self ts s :
  Forall (fun t => ticks_diff t.1 (Button.last_time self) < BTN_DEBOUNCE_MS) ts ->
  triggers on_click self ts s = (O, self, s).
Proof.
  induction 1 as [|[now pin] ts Hnow _ IH]; simpl; [done|].
  unfold Button._handler. simpl in Hnow.
  destruct (Z.ltb_spec (ticks_diff now (Button.last_time self)) BTN_DEBOUNCE_MS);
    [|lia].
  by rewrite IH.
Qed.

(** X18. The debounce window is not retriggered.  Any burst of triggers
    that each come less than the interval after the last accepted one
    (by [ticks_diff]) is ignored entirely, last accepted time included,
    so the next trigger at or past the interval is accepted however long
    the burst went on: exactly one trigger is accepted, the callback
    runs only if the pin is still low after the settle delay, and the
    accepted time is recorded even when it is not. *)
Theorem debounce_burst :
  forall St (on_click : St -> outcome unit * St) self ts t2 pin2 s,
    Forall (fun t => ticks_diff t.1 (Button.last_time self) < BTN_DEBOUNCE_MS)
      ts ->
    BTN_DEBOUNCE_MS <= ticks_diff t2 (Button.last_time self) ->
    triggers on_click self ts s = (O, self, s) /\
    triggers on_click self (ts ++ [(t2, pin2)]) s
    = (1%nat, {| Button.last_time := t2 |},
       if pin2 =? 0 then (on_click s).2 else s).
Proof.
  intros St on_click self ts t2 pin2 s Hts Ht2.
  pose proof (triggers_bounce on_click self ts s Hts) as Hb.
  split; [done|]. rewrite triggers_app, Hb. simpl. unfold Button._handler.
  destruct (Z.ltb_spec (ticks_diff t2 (Button.last_time self)) BTN_DEBOUNCE_MS);
    [lia|].
  by destruct (pin2 =? 0).
Qed.

Lemma debounce_burst_witness :
  triggers on_btn_v {| Button.last_time := 1000 |}
    [(1001, 0); (1050, 0); (1199, 0)] []
  = (O, {| Button.last_time := 1000 |}, []) /\
  triggers on_btn_v {| Button.last_time := 1000 |}
    ([(1001, 0); (1050, 0); (1199, 0)] ++ [(1200, 1)]) []
  = (1%nat, {| Button.last_time := 1200 |},
     if 1 =? 0 then (on_btn_v []).2 else []).
Proof.
  apply (debounce_burst _ on_btn_v {| Button.last_time := 1000 |}
           [(1001, 0); (1050, 0); (1199, 0)] 1200 1 []).
  - repeat constructor.
  - vm_compute. discriminate.
Defined.

(** ** Key events on the host *)

Lemma readline_line (line : list Z) rest :
  Forall (fun b => b <> 10) line ->
  Serial.readline (line ++ 10 :: rest) = (line ++ [10], rest).
Proof.
  induction 1 as [|b line Hb _ IH]; simpl.
  - done.
  - destruct (Z.eqb_spec b 10); [done|]. by rewrite IH.
Qed.

Lemma readline_partial (line : list Z) :
  Forall (fun b => b <> 10) line -> Serial.readline line = (line, []).
Proof.
  induction 1 as [|b line Hb _ IH]; simpl; [done|].
  destruct (Z.eqb_spec b 10); [done|]. by rewrite IH.
Qed.

(** X19. The host writes nothing of its own making to the shell: for
    every line read from the serial port, [pi_bridge.py] writes either
    nothing, one newline, or one DEL (0x7F); and the updated bridge does
    exactly the same on every line that does not begin with [TXT:] after
    decoding and stripping. *)
Theorem relay_closed :
  forall line,
    (Serial.relay line = [] \/ Serial.relay line = [10]
     \/ Serial.relay line = [127]) /\
    (slice (Serial.strip (Serial.decode_ascii_ignore line)) 0 4 <> Serial.TXT ->
     Serial.relay_updated line = Serial.relay line).
Proof.
  intros line. unfold Serial.relay, Serial.relay_updated.
  destruct line as [|b line]; [by auto|].
  repeat case_bool_decide; (split; [by auto|done]).
Qed.

Lemma relay_closed_witness :
  (Serial.relay [75; 13; 10] = [] \/ Serial.relay [75; 13; 10] = [10]
   \/ Serial.relay [75; 13; 10] = [127]) /\
  Serial.relay_updated [75; 13; 10] = Serial.relay [75; 13; 10].
Proof.
  destruct (relay_closed [75; 13; 10]) as [H1 H2].
  split; [exact H1|]. apply H2. vm_compute. discriminate.
Defined.

(** X20. A key press reaches the shell.  When a trigger passes the
    debounce test with the pin still low, the Enter button's callback
    queues the line [KEY:ENTER] on the UART and one visit of the host's
    serial branch turns that line into one newline for the shell,
    leaving what follows it on the port; the Backspace button's line
    becomes one DEL. *)
Theorem key_press_reaches_shell :
  forall self now tx rest,
    BTN_DEBOUNCE_MS <= ticks_diff now (Button.last_time self) ->
    (exists line,
       (Button._handler on_btn_v self now 0 tx).2 = tx ++ line /\
       Serial.serial_ready (line ++ rest) = ([10], rest)) /\
    (exists line,
       (Button._handler on_btn_h self now 0 tx).2 = tx ++ line /\
       Serial.serial_ready (line ++ rest) = ([127], rest)).
Proof.
  intros self now tx rest Hnow. unfold Button._handler.
  destruct (Z.ltb_spec (ticks_diff now (Button.last_time self)) BTN_DEBOUNCE_MS);
    [lia|].
  split; eexists; (split; [reflexivity|]); reflexivity.
Qed.

Lemma key_press_reaches_shell_witness :
  (exists line,
     (Button._handler on_btn_v Button.init 5000 0 []).2 = [] ++ line /\
     Serial.serial_ready (line ++ [75]) = ([10], [75])) /\
  (exists line,
     (Button._handler on_btn_h Button.init 5000 0 []).2 = [] ++ line /\
     Serial.serial_ready (line ++ [75]) = ([127], [75])).
Proof.
  apply (key_press_reaches_shell Button.init 5000 [] [75]).
  vm_compute. discriminate.
Defined.

(** X21. A key event that arrives in two pieces is lost.  The port is
    read without waiting, so when only the first [k] bytes of
    [KEY:ENTER\n] are there, with the cut inside the word, [readline]
    returns them as a line of their own; neither that piece nor the
    rest, read on a later visit, is a known token, and nothing is
    written to the shell. *)
Theorem split_key_event_lost :
  forall k : nat,
    (1 <= k <= 8)%nat ->
    let token := Serial.KEY_ENTER ++ [10] in
    Serial.serial_ready (take k token) = ([], []) /\
    Serial.serial_ready (drop k token) = ([], []).
Proof.
  intros k Hk.
  do 9 (destruct k as [|k]; [try lia; by vm_compute|]). lia.
Qed.

Lemma split_key_event_lost_witness :
  Serial.serial_ready (take 4 (Serial.KEY_ENTER ++ [10])) = ([], []) /\
  Serial.serial_ready (drop 4 (Serial.KEY_ENTER ++ [10])) = ([], []).
Proof. apply (split_key_event_lost 4). lia. Defined.

(** ** Literal text on the updated bridge *)

Lemma lstrip_app (a b : list Z) :
  (forall x b', b = x :: b' -> Serial.is_space x = false) ->
  Serial.lstrip (a ++ b) = Serial.lstrip a ++ b.
Proof.
  intros Hb. induction a as [|c a IH]; simpl.
  - destruct b as [|x b']; [done|]. simpl. by rewrite (Hb x b').
  - by destruct (Serial.is_space c).
Qed.

Lemma lstrip_Forall (P : Z -> Prop) (l : list Z) :
  Forall P l -> Forall P (Serial.lstrip l).
Proof.
  induction 1 as [|c l Hc Hl IH]; simpl; [constructor|].
  destruct (Serial.is_space c); [done|by constructor].
Qed.

Lemma rstrip_Forall (P : Z -> Prop) (l : list Z) :
  Forall P l -> Forall P (Serial.rstrip l).
Proof.
  intros H. unfold Serial.rstrip.
  by apply Forall_reverse, lstrip_Forall, Forall_reverse.
Qed.

Lemma strip_txt_line (t : list Z) :
  Serial.strip (Serial.TXT ++ t ++ [10]) = Serial.TXT ++ Serial.rstrip t.
Proof.
  unfold Serial.strip. change (Serial.lstrip (Serial.TXT ++ t ++ [10]))
    with (Serial.TXT ++ t ++ [10]).
  unfold Serial.rstrip.
  rewrite !reverse_app. change (reverse [10]) with [10]. simpl.
  rewrite lstrip_app by (by intros x b' [= <- _]).
  by rewrite reverse_app, reverse_involutive.
Qed.

Lemma filter_ascii_id (l : list Z) :
  Forall (fun b => b < 128) l -> filter (fun b => b < 128) l = l.
Proof.
  induction 1 as [|b l Hb _ IH]; [done|].
  by rewrite filter_cons_True, IH.
Qed.

Lemma filter_ascii_Forall (l : list Z) :
  Forall (fun b => b < 128) (filter (fun b => b < 128) l).
Proof.
  induction l as [|b l IH]; [constructor|].
  destruct (decide (b < 128)).
  - rewrite filter_cons_True by done. by constructor.
  - by rewrite filter_cons_False.
Qed.

(** X22. Literal text.  On the updated bridge a line [TXT:<text>]
    followed by a newline is relayed as the text with its bytes above
    127 dropped and its trailing whitespace stripped, so a text of
    blanks only relays nothing; the first bridge relays nothing for
    such a line. *)
Theorem txt_line_relayed :
  forall text,
    Serial.relay_updated (Serial.TXT ++ text ++ [10])
    = Serial.rstrip (Serial.decode_ascii_ignore text) /\
    Serial.relay (Serial.TXT ++ text ++ [10]) = [].
Proof.
  intros text.
  set (t := Serial.decode_ascii_ignore text).
  assert (Hdec : Serial.decode_ascii_ignore (Serial.TXT ++ text ++ [10])
                 = Serial.TXT ++ t ++ [10]).
  { unfold Serial.decode_ascii_ignore, t.
    by rewrite !list.filter_app. }
  unfold Serial.relay_updated, Serial.relay. simpl app.
  change (84 :: 88 :: 84 :: 58 :: text ++ [10])
    with (Serial.TXT ++ text ++ [10]).
  rewrite Hdec, strip_txt_line.
  rewrite !bool_decide_eq_false_2 by discriminate.
  split; [|done].
  assert (Hlen : 4 <= len (Serial.TXT ++ Serial.rstrip t))
    by (unfold len; rewrite length_app; simpl; lia).
  assert (Hhead : slice (Serial.TXT ++ Serial.rstrip t) 0 4 = Serial.TXT).
  { unfold slice, clip. change (0 <? 0) with false.
    change (4 <? 0) with false. cbv iota.
    rewrite !Z.min_l by lia. done. }
  assert (Htail : slice (Serial.TXT ++ Serial.rstrip t) 4
                    (len (Serial.TXT ++ Serial.rstrip t))
                  = Serial.rstrip t).
  { unfold slice, clip. change (4 <? 0) with false. cbv iota.
    destruct (Z.ltb_spec (len (Serial.TXT ++ Serial.rstrip t)) 0); [lia|].
    rewrite Z.min_id, Z.min_l by lia.
    change (Z.to_nat 4) with (length Serial.TXT).
    rewrite drop_app_length. apply take_ge.
    unfold len. rewrite length_app. simpl. lia. }
  rewrite Hhead, Htail, bool_decide_eq_true_2 by done.
  apply filter_ascii_id, rstrip_Forall, filter_ascii_Forall.
Qed.

(** ** The two copies of the window code *)

Lemma slice_stop_clipped (row : list Z) start stop :
  0 <= stop ->
  slice row start (Z.min (len row) stop) = slice row start stop.
Proof.
  intros Hstop. unfold slice, clip.
  assert (0 <= len row) by (unfold len; lia).
  destruct (Z.ltb_spec (Z.min (len row) stop) 0); [lia|].
  destruct (Z.ltb_spec stop 0); [lia|].
  by replace (Z.min (Z.min (len row) stop) (len row))
    with (Z.min stop (len row)) by lia.
Qed.

(** X23. The firmware copy at the end of [pi_bridge.py] and
    [pico_main.py] show the same window: on a well-formed view with
    non-negative dimensions, horizontal offset and width, [Term.window]
    and [TerminalView.window_lines] return the same lines, or raise the
    same exception, for every height. *)
Theorem window_copies_agree :
  forall term width height,
    buffer_shape term ->
    0 <= cols term -> 0 <= h_off term -> 0 <= width ->
    Term.window term width height = window_lines term width height.
Proof.
  intros term width height [Hlen Hall] Hcols Hh Hwidth.
  unfold Term.window, window_lines.
  generalize (range height), (@nil (list Z)).
  intros rs. induction rs as [|r rs IH]; intros acc; simpl; [done|].
  assert (Hline : Term.window_line term width r = window_line term width r).
  { unfold Term.window_line, window_line, window_span, window_row.
    destruct (index (buffer term) (Z.min (rows term - 1) (v_off term + r)))
      as [row|] eqn:Hrow; [|done].
    assert (Hl : len row = cols term).
    { unfold index in Hrow.
      destruct (0 <=? Z.min (rows term - 1) (v_off term + r));
        [|destruct (0 <=? Z.min (rows term - 1) (v_off term + r)
                            + len (buffer term)); [|done]];
        pose proof (proj1 (Forall_lookup _ _) Hall _ _ Hrow) as Hl;
        simpl in Hl; lia. }
    by rewrite <- Hl, slice_stop_clipped by lia. }
  rewrite Hline. destruct (window_line term width r); [apply IH|done].
Qed.

Lemma window_copies_agree_witness :
  Term.window (scroll_h (init 2 3) 2) 4 3
  = window_lines (scroll_h (init 2 3) 2) 4 3.
Proof.
  apply (window_copies_agree (scroll_h (init 2 3) 2) 4 3).
  - split; [reflexivity|]. repeat constructor.
  - simpl. lia.
  - simpl. lia.
  - lia.
Defined.
